(** * The Milvus storage backend of docarray

    A shallow embedding of [docarray/array/storage/milvus/backend.py]:
    the helper [always_true_expr], the [MilvusConfig] dataclass and the
    methods of [BackendMixin] ([_init_storage], the two provisioning
    methods, [_ensure_unique_config] and the two payload encoders).

    Python objects that are passed by reference and mutated (the
    configuration objects) live in an explicit heap; calls that leave the
    process (the Milvus client, the base class) are recorded in a log and
    may be refused by the world the program runs in; [uuid.uuid4] draws
    from the world's entropy. *)

From Stdlib Require Import ZArith NArith Ascii String List Bool Lia.
From stdpp Require Import base option list gmap strings.

Set Warnings "-register-all".
Local Open Scope Z_scope.

(** ** Strings *)

(** The double-quote character, [chr 34]. *)
Definition dquote : string := String (Ascii.ascii_of_nat 34) EmptyString.

(** ** [always_true_expr] (backend.py, lines 16-24) *)

(** The f-string
    [f'({primary_key} in ["1"]) or ({primary_key} not in ["1"])']. *)
Definition always_true_expr (primary_key : string) : string :=
  "(" +:+ primary_key +:+ " in [" +:+ dquote +:+ "1" +:+ dquote +:+ "]) or ("
      +:+ primary_key +:+ " not in [" +:+ dquote +:+ "1" +:+ dquote +:+ "])".

(** ** Boolean expressions of the store

    The expression language that the string of [always_true_expr] is
    written in belongs to Milvus, not to this repository.  The fragment
    used here is: membership of a field in a list of string constants,
    its negation, and disjunction, conjunction and negation of
    expressions.  [print_expr] is its concrete syntax and [eval_expr] its
    meaning on one entity (a row: field name to value). *)
Module Expr.

Inductive field_value :=
| FVarchar (s : string)
| FInt64 (n : Z)
| FFloatVector (dim : nat).

Inductive expr :=
| In (field : string) (consts : list string)
| NotIn (field : string) (consts : list string)
| Or (e1 e2 : expr)
| And (e1 e2 : expr)
| Not (e : expr).

Definition print_const (c : string) : string := dquote +:+ c +:+ dquote.

Fixpoint print_consts (cs : list string) : string :=
  match cs with
  | [] => ""
  | [c] => print_const c
  | c :: cs' => print_const c +:+ ", " +:+ print_consts cs'
  end.

Fixpoint print_expr (e : expr) : string :=
  match e with
  | In f cs => f +:+ " in [" +:+ print_consts cs +:+ "]"
  | NotIn f cs => f +:+ " not in [" +:+ print_consts cs +:+ "]"
  | Or e1 e2 => "(" +:+ print_expr e1 +:+ ") or (" +:+ print_expr e2 +:+ ")"
  | And e1 e2 => "(" +:+ print_expr e1 +:+ ") and (" +:+ print_expr e2 +:+ ")"
  | Not e => "not (" +:+ print_expr e +:+ ")"
  end.

Definition member (s : string) (cs : list string) : bool :=
  existsb (String.eqb s) cs.

(** [None] is an expression the store rejects on this entity: a field
    the entity does not have, or a string membership test on a field
    that is not a VARCHAR. *)
Fixpoint eval_expr (entity : gmap string field_value) (e : expr) : option bool :=
  match e with
  | In f cs =>
      match entity !! f with
      | Some (FVarchar s) => Some (member s cs)
      | _ => None
      end
  | NotIn f cs =>
      match entity !! f with
      | Some (FVarchar s) => Some (negb (member s cs))
      | _ => None
      end
  | Or e1 e2 =>
      match eval_expr entity e1, eval_expr entity e2 with
      | Some b1, Some b2 => Some (b1 || b2)
      | _, _ => None
      end
  | And e1 e2 =>
      match eval_expr entity e1, eval_expr entity e2 with
      | Some b1, Some b2 => Some (b1 && b2)
      | _, _ => None
      end
  | Not e =>
      match eval_expr entity e with
      | Some b => Some (negb b)
      | None => None
      end
  end.

(** The entities a filter selects. *)
Definition select (e : expr) (entities : list (gmap string field_value))
  : list (gmap string field_value) :=
  filter (fun ent => eval_expr ent e = Some true) entities.

End Expr.

(** ** Python values *)

(** The values a configuration mapping holds.  Nested mappings are held
    by value. *)
Inductive pyval :=
| PNone
| PBool (b : bool)
| PInt (n : Z)
| PStr (s : string)
| PDict (d : gmap string pyval).

(** ** The client library's schema descriptors

    [DataType], [FieldSchema], [CollectionSchema] and [Collection] are
    pymilvus classes; a descriptor is the record of the arguments it was
    built from ([is_primary] is [False] when it is not given, and a name
    is whatever the caller passes, [None] included). *)
Inductive DataType :=
| BOOL | INT64 | FLOAT | DOUBLE | VARCHAR | BINARY_VECTOR | FLOAT_VECTOR.

Record FieldSchema := mkFieldSchema {
  fs_name : string;
  fs_dtype : DataType;
  fs_max_length : option Z;
  fs_dim : option Z;
  fs_is_primary : bool
}.

Record CollectionSchema := mkCollectionSchema {
  cs_fields : list FieldSchema;
  cs_description : string
}.

Record Collection := mkCollection {
  col_name : option string;
  col_schema : CollectionSchema;
  col_using : string;
  col_kwargs : gmap string pyval
}.

(** ** [MilvusConfig] (backend.py, lines 27-39) *)

Inductive port_value :=
| PortStr (s : string)
| PortInt (n : Z).

Record MilvusConfig := mkMilvusConfig {
  n_dim : Z;
  collection_name : option string;
  host : string;
  port : option port_value;
  distance : string;
  index_type : string;
  index_config : option (gmap string pyval);
  collection_config : gmap string pyval;
  serialize_config : gmap string pyval
}.

Definition set_collection_name (name : string) (c : MilvusConfig) : MilvusConfig :=
  {| n_dim := n_dim c;
     collection_name := Some name;
     host := host c;
     port := port c;
     distance := distance c;
     index_type := index_type c;
     index_config := index_config c;
     collection_config := collection_config c;
     serialize_config := serialize_config c |}.

(** ** The heap, the outside world and exceptions *)

Definition loc := positive.

(** What a configuration reference may point to: a plain [dict] or a
    [MilvusConfig] instance. *)
Inductive object :=
| ODict (d : gmap string pyval)
| OConfig (c : MilvusConfig).

(** Calls that leave this file: to the Milvus client
    ([connections.connect], [Collection]) and to the base class
    ([super()._init_storage]; the documents it is handed are forwarded
    untouched and are not recorded). *)
Inductive call :=
| Connect (alias : string) (h : string) (p : option port_value)
| CreateCollection (c : Collection)
| SuperInitStorage (config : loc) (kwargs : gmap string pyval).

Inductive exn :=
| ValueError (msg : string)
| TypeError (msg : string)
| KeyError (key : string)
| AttributeError (attr : string)
| ExternalError (c : call)
| SerializationError (msg : string)
| InvalidReference (l : loc).

(** The world decides which outside calls succeed, given the calls made
    so far, and supplies the random bytes: [entropy i] is the [i]-th draw
    of [os.urandom(16)] read as a big-endian integer. *)
Record World := mkWorld {
  accepts : list call -> call -> bool;
  entropy : nat -> N
}.

(** The attributes of the adapter ([self]); an attribute that has not
    been assigned yet is [None]. *)
Record Self := mkSelf {
  _config : option loc;
  _connection_alias : option string;
  _collection : option Collection;
  _offset2id_collection : option Collection
}.

Record state := mkState {
  heap : gmap loc object;
  self : Self;
  log : list call;
  draws : nat
}.

Definition empty_self : Self := mkSelf None None None None.

(** ** The monad of the embedding: state that survives an exception *)

Definition M (A : Type) : Type := state -> (exn + A) * state.

Global Instance M_ret : MRet M := fun A a st => (inr a, st).
Global Instance M_bind : MBind M := fun A B f m st =>
  match m st with
  | (inr a, st') => f a st'
  | (inl e, st') => (inl e, st')
  end.

Definition raise {A} (e : exn) : M A := fun st => (inl e, st).
Definition lift {A} (r : exn + A) : M A := fun st => (r, st).
Definition get_state : M state := fun st => (inr st, st).
Definition modify (f : state -> state) : M unit := fun st => (inr tt, f st).

Definition with_heap (h : gmap loc object) (st : state) : state :=
  mkState h (self st) (log st) (draws st).
Definition with_self (s : Self) (st : state) : state :=
  mkState (heap st) s (log st) (draws st).
Definition with_log (l : list call) (st : state) : state :=
  mkState (heap st) (self st) l (draws st).
Definition with_draws (n : nat) (st : state) : state :=
  mkState (heap st) (self st) (log st) n.

(** Reading through a reference. *)
Definition deref (l : loc) : M object := fun st =>
  match heap st !! l with
  | Some o => (inr o, st)
  | None => (inl (InvalidReference l), st)
  end.

(** A new object gets an address no live object has. *)
Definition alloc (o : object) : M loc := fun st =>
  let l := fresh (dom (heap st)) in
  (inr l, with_heap (<[l := o]> (heap st)) st).

Definition store (l : loc) (o : object) : M unit :=
  modify (fun st => with_heap (<[l := o]> (heap st)) st).

(** A call to the outside is logged, then succeeds or raises. *)
Definition external (c : call) (W : World) : M unit := fun st =>
  let st' := with_log (log st ++ [c]) st in
  if accepts W (log st) c then (inr tt, st') else (inl (ExternalError c), st').

(** ** [uuid.uuid4().hex]

    [uuid] is Python's standard library.  [uuid4()] is
    [UUID(bytes=os.urandom(16), version=4)]: the sixteen bytes are read
    as a big-endian integer, the variant bits are set to RFC 4122 and the
    version bits to 4; [.hex] is ['%032x' % int]. *)
Module Uuid.
Local Open Scope N_scope.

Definition hex_alphabet : list ascii := list_ascii_of_string "0123456789abcdef".

Definition hex_digit (d : N) : ascii := nth (N.to_nat d) hex_alphabet "0"%char.

(** The digits of a positive number, most significant first, in front
    of [acc]. *)
Fixpoint hex_digits (fuel : nat) (n : N) (acc : string) : string :=
  match fuel with
  | O => acc
  | S fuel' =>
      if n =? 0 then acc
      else hex_digits fuel' (n / 16) (String (hex_digit (n mod 16)) acc)
  end.

(** ['%x' % n] *)
Definition to_hex (n : N) : string :=
  if n =? 0 then "0"%string else hex_digits (N.size_nat n) n EmptyString.

Fixpoint replicate_char (k : nat) (c : ascii) : string :=
  match k with
  | O => EmptyString
  | S k' => String c (replicate_char k' c)
  end.

(** Zero padding on the left up to [width]; a longer string is kept. *)
Definition zfill (width : nat) (s : string) : string :=
  (replicate_char (width - String.length s) "0" +:+ s)%string.

(** ['%032x' % n] *)
Definition format_032x (n : N) : string := zfill 32 (to_hex n).

(** [UUID.__init__] with [version=4], from the integer of the bytes. *)
Definition uuid4_int (r : N) : N :=
  let i := N.ldiff r (N.shiftl 0xc000 48) in
  let i := N.lor i (N.shiftl 0x8000 48) in
  let i := N.ldiff i (N.shiftl 0xf000 64) in
  N.lor i (N.shiftl 4 76).

Definition urandom16 (W : World) (i : nat) : N := entropy W i mod 2 ^ 128.

Definition is_hex_char (c : ascii) : bool :=
  existsb (Ascii.eqb c) hex_alphabet.

Fixpoint is_hex_string (s : string) : bool :=
  match s with
  | EmptyString => true
  | String c rest => is_hex_char c && is_hex_string rest
  end.
End Uuid.

(** [uuid.uuid4().hex]: one draw from the world's entropy. *)
Definition uuid4_hex (W : World) : M string := fun st =>
  (inr (Uuid.format_032x (Uuid.uuid4_int (Uuid.urandom16 W (draws st)))),
   with_draws (S (draws st)) st).

(** ** [dataclass_from_dict(MilvusConfig, config)] *)

Definition MilvusConfig_fields : list string :=
  ["n_dim"; "collection_name"; "host"; "port"; "distance"; "index_type";
   "index_config"; "collection_config"; "serialize_config"].

Definition sum_bind {E A B} (r : E + A) (f : A -> E + B) : E + B :=
  match r with
  | inl e => inl e
  | inr a => f a
  end.

Notation "'let?' x := r 'in' k" := (sum_bind r (fun x => k))
  (at level 10, x name, r at level 100, k at level 200, only parsing).

Definition invalid_field {A} (k : string) : exn + A :=
  inl (TypeError ("invalid value for " +:+ k)).

Definition read_required_int (d : gmap string pyval) (k : string) : exn + Z :=
  match d !! k with
  | Some (PInt n) => inr n
  | Some _ => invalid_field k
  | None => inl (TypeError ("missing required argument " +:+ k))
  end.

Definition read_str (d : gmap string pyval) (k : string) (default : string)
  : exn + string :=
  match d !! k with
  | None => inr default
  | Some (PStr s) => inr s
  | Some _ => invalid_field k
  end.

Definition read_opt_str (d : gmap string pyval) (k : string) : exn + option string :=
  match d !! k with
  | None | Some PNone => inr None
  | Some (PStr s) => inr (Some s)
  | Some _ => invalid_field k
  end.

Definition read_port (d : gmap string pyval) (k : string) : exn + option port_value :=
  match d !! k with
  | None => inr (Some (PortInt 19530))
  | Some PNone => inr None
  | Some (PStr s) => inr (Some (PortStr s))
  | Some (PInt n) => inr (Some (PortInt n))
  | Some _ => invalid_field k
  end.

Definition read_opt_dict (d : gmap string pyval) (k : string)
  : exn + option (gmap string pyval) :=
  match d !! k with
  | None | Some PNone => inr None
  | Some (PDict m) => inr (Some m)
  | Some _ => invalid_field k
  end.

Definition read_dict (d : gmap string pyval) (k : string) : exn + gmap string pyval :=
  match d !! k with
  | None => inr ∅
  | Some (PDict m) => inr m
  | Some _ => invalid_field k
  end.

(** The keys of the mapping that are no field of [MilvusConfig]. *)
Definition unknown_keys (d : gmap string pyval) : list string :=
  filter (fun k => k ∉ MilvusConfig_fields) (map_to_list d).*1.

(** Modelled from the spec: [docarray.helper.dataclass_from_dict] is not
    among the sources.  It "deserializes [the mapping] into the canonical
    record, filling unspecified fields with documented defaults
    (host="localhost", port=19530, distance="IP", index kind="HNSW", empty
    option mappings)"; the defaults are those of the dataclass (lines
    29-39), where [n_dim] has none and so must be given.  The record is
    "validated": a key that is no field of the record, or a value that is
    not of the field's annotated type, is a structurally invalid
    configuration. *)
Definition dataclass_from_dict (d : gmap string pyval) : exn + MilvusConfig :=
  match unknown_keys d with
  | k :: _ => inl (KeyError k)
  | [] =>
      let? n := read_required_int d "n_dim" in
      let? name := read_opt_str d "collection_name" in
      let? h := read_str d "host" "localhost" in
      let? p := read_port d "port" in
      let? dist := read_str d "distance" "IP" in
      let? ity := read_str d "index_type" "HNSW" in
      let? icfg := read_opt_dict d "index_config" in
      let? ccfg := read_dict d "collection_config" in
      let? scfg := read_dict d "serialize_config" in
      inr (mkMilvusConfig n name h p dist ity icfg ccfg scfg)
  end.

(** ** [BackendMixin] (backend.py, lines 42-145) *)

Definition empty_config_message : string :=
  "Empty config is not allowed for Elastic storage".

(** [copy.deepcopy(config)]: [None] stays [None]; an object is copied
    into a new one, nested mappings included since they are held by
    value. *)
Definition deepcopy (config : option loc) : M (option loc) :=
  match config with
  | None => mret None
  | Some l => o ← deref l; l' ← alloc o; mret (Some l')
  end.

(** Python's truth value of a configuration object: a [dict] is false
    when it has no entry, a dataclass instance is always true. *)
Definition truthy (o : object) : bool :=
  match o with
  | ODict d => negb (Nat.eqb (size d) 0)
  | OConfig _ => true
  end.

(** Attribute access [config.<field>] through a reference; a [dict] has
    no such attribute. *)
Definition config_of (attr : string) (l : loc) : M MilvusConfig :=
  o ← deref l;
  match o with
  | OConfig c => mret c
  | ODict _ => raise (AttributeError attr)
  end.

(** [config.collection_name = name] *)
Definition setattr_collection_name (l : loc) (name : string) : M unit :=
  cfg ← config_of "collection_name" l;
  store l (OConfig (set_collection_name name cfg)).

(** [self._config.<field>] *)
Definition self_config (attr : string) : M MilvusConfig :=
  st ← get_state;
  match _config (self st) with
  | Some l => config_of attr l
  | None => raise (AttributeError "_config")
  end.

(** [self._connection_alias] *)
Definition self_connection_alias : M string :=
  st ← get_state;
  match _connection_alias (self st) with
  | Some a => mret a
  | None => raise (AttributeError "_connection_alias")
  end.

Definition set_self (f : Self -> Self) : M unit :=
  modify (fun st => with_self (f (self st)) st).

(** A [dict] argument, read through its reference; the operators used
    on it ([in], subscription) are not defined on a dataclass instance. *)
Definition dict_of (l : loc) : M (gmap string pyval) :=
  o ← deref l;
  match o with
  | ODict d => mret d
  | OConfig _ => raise (TypeError "MilvusConfig is not a mapping")
  end.

(** [key in d] *)
Definition contains (l : loc) (key : string) : M bool :=
  d ← dict_of l; mret (bool_decide (is_Some (d !! key))).

(** [d[key]] *)
Definition getitem (l : loc) (key : string) : M pyval :=
  d ← dict_of l;
  match d !! key with
  | Some v => mret v
  | None => raise (KeyError key)
  end.

(** [d[key] = v] *)
Definition setitem (l : loc) (key : string) (v : pyval) : M unit :=
  d ← dict_of l; store l (ODict (<[key := v]> d)).

(** [v + s] for a string [s]: concatenation when [v] is a string; no
    other value of a configuration mapping can be added to a string. *)
Definition add_str (v : pyval) (s : string) : M pyval :=
  match v with
  | PStr x => mret (PStr (x +:+ s))
  | _ => raise (TypeError "unsupported operand type(s) for +")
  end.

(** The keywords [Collection] is called with explicitly; Python refuses
    a call that receives one of them a second time through [**kwargs]. *)
Definition Collection_keywords : list string := ["name"; "schema"; "using"].

Definition repeated_keywords (kwargs : gmap string pyval) : list string :=
  filter (fun k => is_Some (kwargs !! k)) Collection_keywords.

Section BackendMixin.
Variable W : World.

(** [Collection(name=..., schema=..., using=..., **kwargs)] *)
Definition Collection_new (name : option string) (schema : CollectionSchema)
    (alias : string) (kwargs : gmap string pyval) : M Collection :=
  match repeated_keywords kwargs with
  | k :: _ => raise (TypeError ("got multiple values for keyword argument " +:+ k))
  | [] =>
      let c := mkCollection name schema alias kwargs in
      external (CreateCollection c) W;; mret c
  end.

(** Lines 70-91. *)
Definition _create_or_reuse_collection : M Collection :=
  let document_id := mkFieldSchema "document_id" VARCHAR (Some 1024) None true in
  cfg ← self_config "n_dim";
  let embedding := mkFieldSchema "embedding" FLOAT_VECTOR None (Some (n_dim cfg)) false in
  let serialized := mkFieldSchema "serialized" VARCHAR (Some 65535) None false in
  let schema :=
    mkCollectionSchema [document_id; embedding; serialized]
      "DocumentArray collection" in
  cfg ← self_config "collection_name";
  let name := collection_name cfg in
  alias ← self_connection_alias;
  cfg ← self_config "collection_config";
  Collection_new name schema alias (collection_config cfg).

(** Lines 93-118. *)
Definition _create_or_reuse_offset2id_collection : M Collection :=
  let document_id := mkFieldSchema "document_id" VARCHAR (Some 1024) None false in
  let offset := mkFieldSchema "offset" VARCHAR (Some 1024) None true in
  let dummy_vector := mkFieldSchema "dummy_vector" FLOAT_VECTOR None (Some 1) false in
  let schema :=
    mkCollectionSchema [offset; document_id; dummy_vector]
      "offset2id for DocumentArray" in
  cfg ← self_config "collection_name";
  name ← match collection_name cfg with
         | Some n => mret (Some (n +:+ "_offset2id"))
         | None => raise (TypeError "unsupported operand type(s) for +")
         end;
  alias ← self_connection_alias;
  Collection_new name schema alias ∅.

(** Lines 50-53: an absent or empty configuration is refused, a
    mapping becomes a new [MilvusConfig] instance. *)
Definition normalize_config (config : option loc) : M loc :=
  match config with
  | None => raise (ValueError empty_config_message)
  | Some l =>
      o ← deref l;
      if negb (truthy o) then raise (ValueError empty_config_message)
      else match o with
           | ODict d => c ← lift (dataclass_from_dict d); alloc (OConfig c)
           | OConfig _ => mret l
           end
  end.

(** Lines 55-57: a configuration without a collection name is given a
    generated one. *)
Definition assign_collection_name (config : loc) : M unit :=
  cfg ← config_of "collection_name" config;
  match collection_name cfg with
  | None =>
      id ← uuid4_hex W;
      setattr_collection_name config ("docarray__" +:+ id)
  | Some _ => mret tt
  end.

(** Lines 49-57: the configuration is copied, checked, turned into a
    [MilvusConfig] and given a collection name; the result is the
    reference that [self._config] is then bound to. *)
Definition resolve_config (config : option loc) : M loc :=
  config ← deepcopy config;
  config ← normalize_config config;
  assign_collection_name config;;
  mret config.

(** Lines 58-68: the resolved configuration is bound to the adapter,
    the connection is opened, both collections are provisioned and the
    base class is initialised. *)
Definition init_resolved (config : loc) (kwargs : gmap string pyval) : M unit :=
  set_self (fun s =>
    mkSelf (Some config) (_connection_alias s) (_collection s)
      (_offset2id_collection s));;
  set_self (fun s =>
    mkSelf (_config s) (Some "docarray_default_connection") (_collection s)
      (_offset2id_collection s));;
  alias ← self_connection_alias;
  cfg ← config_of "host" config;
  external (Connect alias (host cfg) (port cfg)) W;;
  c ← _create_or_reuse_collection;
  set_self (fun s =>
    mkSelf (_config s) (_connection_alias s) (Some c) (_offset2id_collection s));;
  c ← _create_or_reuse_offset2id_collection;
  set_self (fun s =>
    mkSelf (_config s) (_connection_alias s) (_collection s) (Some c));;
  external (SuperInitStorage config kwargs) W.

(** Lines 43-68. *)
Definition _init_storage (config : option loc) (kwargs : gmap string pyval)
  : M unit :=
  config ← resolve_config config;
  init_resolved config kwargs.

(** Lines 120-131.  The joined mapping is updated in place and its own
    reference is returned. *)
Definition _ensure_unique_config
    (config_root config_subindex config_joined : loc) (subindex_name : string)
  : M loc :=
  present ← contains config_subindex "collection_name";
  (if negb present then
     v ← getitem config_joined "collection_name";
     v ← add_str v "_subindex_";
     v ← add_str v subindex_name;
     setitem config_joined "collection_name" v
   else mret tt);;
  mret config_joined.

End BackendMixin.

(** ** The payload codec (lines 133-145) *)

(** What the codec needs of a document: its [id], its [embedding], which
    is [None] until one is set, and [to_base64] under keyword options,
    which may raise; and of an embedding, which is an array: its shape. *)
Class DocumentLike (D T : Type) := {
  id_of : D -> string;
  embedding_of : D -> option T;
  shape_of : T -> list nat;
  to_base64 : gmap string pyval -> D -> exn + string
}.

Section PayloadCodec.
Context {D T : Type} `{DocumentLike D T}.

(** One cell of a column of the payload: a string, an array or [None]. *)
Inductive cell :=
| CStr (s : string)
| CTensor (t : T)
| CNone.

Definition embedding_cell (e : option T) : cell :=
  match e with
  | Some t => CTensor t
  | None => CNone
  end.

(** Modelled from the spec: the column projection [docs[:, attr]] of
    [DocumentArray] is not among the sources.  The collection type is
    "a generic ordered-collection type supporting column projection by
    field name": the attribute of every document, in the order of the
    documents. *)
Definition column {A} (attr : D -> A) (docs : list D) : list A :=
  map attr docs.

Definition is_unset (e : option T) : bool :=
  match e with
  | None => true
  | Some _ => false
  end.

(** The shape numpy gives an entry of a stack: [None] is read as an
    array of no dimension. *)
Definition entry_shape (e : option T) : list nat :=
  match e with
  | Some t => shape_of t
  | None => []
  end.

Definition has_shape_of (t0 : T) (e : option T) : bool :=
  bool_decide (entry_shape e = shape_of t0).

(** Modelled from the spec: the projection [docs[:, 'embedding']] of
    [DocumentArray] is not among the sources.  For this field the
    "column projection by field name" is the array's [embeddings]: it is
    [None] for an empty array; when the first document has an embedding,
    it is all the embeddings stacked as the rows of one array, which
    fails (numpy's [stack]) unless every entry has the shape of the
    first; when the first document has none, it is [None] if no document
    has one and the plain list of the embeddings otherwise. *)
Definition embeddings (docs : list D) : exn + option (list (option T)) :=
  match docs with
  | [] => inr None
  | first :: _ =>
      let all := column embedding_of docs in
      match embedding_of first with
      | None => if forallb is_unset all then inr None else inr (Some all)
      | Some t0 =>
          if forallb (has_shape_of t0) all then inr (Some all)
          else inl (ValueError "all input arrays must have the same shape")
      end
  end.

(** [list(x)] for what a projection gives: the rows of an array or the
    elements of a list; [None] is not iterable. *)
Definition py_list {A} (x : option (list A)) : exn + list A :=
  match x with
  | Some l => inr l
  | None => inl (TypeError "'NoneType' object is not iterable")
  end.

(** Line 143: [list(docs[:, 'embedding'])]. *)
Definition embeddings_column (docs : list D) : exn + list (option T) :=
  sum_bind (embeddings docs) py_list.

(** [doc.to_base64] under the options [self._config.serialize_config] *)
Definition serialize (doc : D) : M string :=
  cfg ← self_config "serialize_config";
  lift (to_base64 (serialize_config cfg) doc).

(** A list comprehension whose element expression may raise. *)
Fixpoint comprehension {A B} (f : A -> M B) (l : list A) : M (list B) :=
  match l with
  | [] => mret []
  | a :: l' => b ← f a; bs ← comprehension f l'; mret (b :: bs)
  end.

(** Lines 133-138. *)
Definition _doc_to_milvus_payload (doc : D) : M (list (list cell)) :=
  s ← serialize doc;
  mret [[CStr (id_of doc)]; [embedding_cell (embedding_of doc)]; [CStr s]].

(** Lines 140-145. *)
Definition _docs_to_milvus_payload (docs : list D) : M (list (list cell)) :=
  let ids := column id_of docs in
  rows ← lift (embeddings_column docs);
  ss ← comprehension serialize docs;
  mret [map CStr ids; map embedding_cell rows; map CStr ss].

End PayloadCodec.

(** ** Vocabulary of the statements *)

(** A computation all of whose steps are related by a preorder on
    states relates its first and last state. *)
Definition preserves {A} (R : state -> state -> Prop) (m : M A) : Prop :=
  forall st, R st (snd (m st)).

(** A computation that raises only exceptions of one kind. *)
Definition raises_only {A} (P : exn -> Prop) (m : M A) : Prop :=
  forall st e, fst (m st) = inl e -> P e.

(** The expression of [always_true_expr] as its documentation writes
    it, with the letter [p] standing for the name of the primary key. *)
Definition always_true_template : string :=
  "(p in [" +:+ dquote +:+ "1" +:+ dquote +:+ "]) or (p not in ["
    +:+ dquote +:+ "1" +:+ dquote +:+ "])".

(** Every occurrence of the placeholder character replaced by a string. *)
Fixpoint substitute (placeholder : ascii) (value template : string) : string :=
  match template with
  | EmptyString => EmptyString
  | String c rest =>
      if Ascii.eqb c placeholder
      then value +:+ substitute placeholder value rest
      else String c (substitute placeholder value rest)
  end.

(** The expression that [always_true_expr] writes down. *)
Definition always_true (primary_key : string) : Expr.expr :=
  Expr.Or (Expr.In primary_key ["1"]) (Expr.NotIn primary_key ["1"]).

(** The canonical record a configuration object stands for. *)
Definition as_config (o : object) : exn + MilvusConfig :=
  match o with
  | OConfig c => inr c
  | ODict d => dataclass_from_dict d
  end.

(** The collection name a configuration object sets, if any. *)
Definition input_collection_name (o : object) : option string :=
  match o with
  | OConfig c => collection_name c
  | ODict d =>
      match d !! "collection_name" with
      | Some (PStr s) => Some s
      | _ => None
      end
  end.

(** The collection name generated from the [draw]-th random bytes. *)
Definition generated_name (W : World) (draw : nat) : string :=
  "docarray__" +:+ Uuid.format_032x (Uuid.uuid4_int (Uuid.urandom16 W draw)).

(** The record after lines 55-57, when [draw] is the next draw. *)
Definition with_resolved_name (W : World) (draw : nat) (c : MilvusConfig)
  : MilvusConfig :=
  match collection_name c with
  | Some _ => c
  | None => set_collection_name (generated_name W draw) c
  end.

(** Every object of the first state is unchanged in the second. *)
Definition objects_kept (st st' : state) : Prop :=
  forall l o, heap st !! l = Some o -> heap st' !! l = Some o.

(** The heap and the entropy are untouched. *)
Definition same_memory (st st' : state) : Prop :=
  heap st' = heap st /\ draws st' = draws st.

(** The adapter's bound configuration is untouched. *)
Definition same_config (st st' : state) : Prop :=
  _config (self st') = _config (self st).

(** The second log continues the first. *)
Definition log_extended (st st' : state) : Prop :=
  exists calls, log st' = log st ++ calls.

(** Any exception but the refusal of an empty configuration. *)
Definition not_empty_config_error (e : exn) : Prop :=
  e <> ValueError empty_config_message.

(** The outcome of a creation request: the request is logged, and the
    collection is returned when the store accepts it. *)
Definition requested (W : World) (c : Collection) (st : state)
  : (exn + Collection) * state :=
  (if accepts W (log st) (CreateCollection c) then inr c
   else inl (ExternalError (CreateCollection c)),
   with_log (log st ++ [CreateCollection c]) st).

(** The fields of the primary collection as the specification lists
    them, for a vector dimension [dim]. *)
Definition primary_fields (dim : Z) : list FieldSchema :=
  [ {| fs_name := "document_id"; fs_dtype := VARCHAR;
       fs_max_length := Some 1024; fs_dim := None; fs_is_primary := true |};
    {| fs_name := "embedding"; fs_dtype := FLOAT_VECTOR;
       fs_max_length := None; fs_dim := Some dim; fs_is_primary := false |};
    {| fs_name := "serialized"; fs_dtype := VARCHAR;
       fs_max_length := Some 65535; fs_dim := None; fs_is_primary := false |} ].

(** The fields of the offset2id collection as the specification lists
    them. *)
Definition offset2id_fields : list FieldSchema :=
  [ {| fs_name := "document_id"; fs_dtype := VARCHAR;
       fs_max_length := Some 1024; fs_dim := None; fs_is_primary := false |};
    {| fs_name := "offset"; fs_dtype := VARCHAR;
       fs_max_length := Some 1024; fs_dim := None; fs_is_primary := true |};
    {| fs_name := "dummy_vector"; fs_dtype := FLOAT_VECTOR;
       fs_max_length := None; fs_dim := Some 1; fs_is_primary := false |} ].

(** The collections whose creation was requested, oldest first. *)
Definition created_collections (l : list call) : list Collection :=
  omap (fun c => match c with CreateCollection col => Some col | _ => None end) l.

(** Only the object at [l] may differ between the two states. *)
Definition changed_only_at (l : loc) (st st' : state) : Prop :=
  (forall l0, l0 <> l -> heap st' !! l0 = heap st !! l0) /\
  self st' = self st /\ log st' = log st /\ draws st' = draws st.

(** The alias that line 60 fixes. *)
Definition default_alias : string := "docarray_default_connection".

(** The collection that lines 72-91 ask for. *)
Definition primary_request (cfg : MilvusConfig) (alias : string) : Collection :=
  mkCollection (collection_name cfg)
    (mkCollectionSchema
       [mkFieldSchema "document_id" VARCHAR (Some 1024) None true;
        mkFieldSchema "embedding" FLOAT_VECTOR None (Some (n_dim cfg)) false;
        mkFieldSchema "serialized" VARCHAR (Some 65535) None false]
       "DocumentArray collection")
    alias (collection_config cfg).

(** The collection that lines 95-118 ask for, for a configuration named
    [name]. *)
Definition offset2id_request (name alias : string) : Collection :=
  mkCollection (Some (name +:+ "_offset2id"))
    (mkCollectionSchema
       [mkFieldSchema "offset" VARCHAR (Some 1024) None true;
        mkFieldSchema "document_id" VARCHAR (Some 1024) None false;
        mkFieldSchema "dummy_vector" FLOAT_VECTOR None (Some 1) false]
       "offset2id for DocumentArray")
    alias ∅.

(** What a call does, whatever its arguments. *)
Inductive call_kind := KConnect | KCreate | KSuper.

Definition kind_of (c : call) : call_kind :=
  match c with
  | Connect _ _ _ => KConnect
  | CreateCollection _ => KCreate
  | SuperInitStorage _ _ => KSuper
  end.

(** A call to the store that goes through the alias of line 60. *)
Definition on_default_connection (c : call) : Prop :=
  match c with
  | Connect alias _ _ => alias = default_alias
  | CreateCollection col => col_using col = default_alias
  | SuperInitStorage _ _ => True
  end.

(** Reading a hexadecimal string back: the position of a digit in the
    alphabet, and the number a string of digits stands for after the
    digits that gave [acc]. *)
Fixpoint index_of (c : ascii) (l : list ascii) (i : N) : N :=
  match l with
  | [] => i
  | x :: rest => if Ascii.eqb c x then i else index_of c rest (i + 1)%N
  end.

Definition hex_value (c : ascii) : N := index_of c Uuid.hex_alphabet 0%N.

Fixpoint of_hex_from (acc : N) (s : string) : N :=
  match s with
  | EmptyString => acc
  | String c rest => of_hex_from (16 * acc + hex_value c)%N rest
  end.

(** ** Sample inputs *)

Module Sample.
(** A world that accepts every call. *)
Definition world : World :=
  mkWorld (fun _ _ => true) (fun i => (0x0123456789abcdef0123456789abcdef + N.of_nat i)%N).

Definition config : MilvusConfig :=
  mkMilvusConfig 128 (Some "docs") "localhost" (Some (PortInt 19530)) "IP" "HNSW"
    None {[ "consistency_level" := PStr "Strong" ]} ∅.

(** An adapter bound to [config]. *)
Definition bound : state :=
  mkState {[ 1%positive := OConfig config ]}
    (mkSelf (Some 1%positive) (Some "docarray_default_connection") None None) [] 0.

(** A caller holding the mapping [{n_dim: 128}]. *)
Definition n_dim_only : state :=
  mkState {[ 1%positive := ODict {[ "n_dim" := PInt 128 ]} ]} empty_self [] 0.

(** A caller holding a mapping that names its collection. *)
Definition named : state :=
  mkState
    {[ 1%positive := ODict {[ "n_dim" := PInt 128; "collection_name" := PStr "docs" ]} ]}
    empty_self [] 0.

(** A root mapping named "R", a subindex mapping without a name and a
    joined mapping named "J". *)
Definition subindex : state :=
  mkState
    {[ 1%positive := ODict {[ "collection_name" := PStr "R" ]};
       2%positive := ODict ∅;
       3%positive := ODict {[ "collection_name" := PStr "J" ]} ]}
    empty_self [] 0.

(** Documents with an identifier, an embedding of integers, if set,
    and a text; only the pickle protocol serializes them. *)
Record document := mkDocument {
  doc_id : string;
  doc_embedding : option (list Z);
  doc_text : string
}.

Global Instance document_like : DocumentLike document (list Z) := {|
  id_of := doc_id;
  embedding_of := doc_embedding;
  shape_of := fun t => [length t];
  to_base64 := fun options doc =>
    match options !! "protocol" with
    | None | Some (PStr "pickle") => inr (doc_id doc +:+ ":" +:+ doc_text doc)
    | Some _ => inl (SerializationError "protocol")
    end
|}.

Definition documents : list document :=
  [mkDocument "a" (Some [1; 2]) "first"; mkDocument "b" (Some [3; 4]) "second"].

(** A document whose embedding has not been set. *)
Definition unembedded : document := mkDocument "c" None "third".
End Sample.

(** ** Further sample inputs *)

Module Scenario.
(** A store that cannot be reached. *)
Definition unreachable : World :=
  mkWorld (fun _ c => match c with Connect _ _ _ => false | _ => true end)
    (fun _ => 0%N).

(** A store that accepts one collection and refuses any further one. *)
Definition one_collection : World :=
  mkWorld
    (fun calls c =>
       match c with
       | CreateCollection _ => Nat.eqb (length (created_collections calls)) 0
       | _ => true
       end)
    (fun _ => 0%N).

(** A world whose random bytes differ from those of [Sample.world]. *)
Definition other_entropy : World :=
  mkWorld (fun _ _ => true) (fun i => (0xfedcba9876543210 + N.of_nat i)%N).

(** An adapter whose collection options repeat the keyword [name]. *)
Definition repeated_name : state :=
  mkState
    {[ 1%positive :=
         OConfig (mkMilvusConfig 128 (Some "docs") "localhost" (Some (PortInt 19530))
                    "IP" "HNSW" None {[ "name" := PStr "other" ]} ∅) ]}
    (mkSelf (Some 1%positive) (Some "docarray_default_connection") None None) [] 0.

(** An adapter bound to a configuration that has no collection name. *)
Definition nameless : state :=
  mkState
    {[ 1%positive :=
         OConfig (mkMilvusConfig 128 None "localhost" (Some (PortInt 19530))
                    "IP" "HNSW" None ∅ ∅) ]}
    (mkSelf (Some 1%positive) (Some "docarray_default_connection") None None) [] 0.

Definition defaults : MilvusConfig :=
  mkMilvusConfig 128 None "localhost" (Some (PortInt 19530)) "IP" "HNSW" None ∅ ∅.

(** A root mapping named "R", a subindex mapping that sets only a
    distance, and their provisional join (the root's entries overridden
    by the subindex's). *)
Definition root_mapping : gmap string pyval :=
  {[ "n_dim" := PInt 128; "collection_name" := PStr "R"; "distance" := PStr "IP" ]}.

Definition subindex_mapping : gmap string pyval :=
  {[ "distance" := PStr "L2" ]}.

Definition join : state :=
  mkState
    {[ 1%positive := ODict root_mapping;
       2%positive := ODict subindex_mapping;
       3%positive := ODict (subindex_mapping ∪ root_mapping) ]}
    empty_self [] 0.

Definition named_docs : MilvusConfig :=
  mkMilvusConfig 128 (Some "docs") "localhost" (Some (PortInt 19530)) "IP" "HNSW"
    None ∅ ∅.
End Scenario.

(** * Properties *)

(** ** Reasoning about the monad *)

Section MonadFacts.
Context {A B : Type}.

Lemma bind_inr (m : M A) (f : A -> M B) st a st' :
  m st = (inr a, st') -> (m ≫= f) st = f a st'.
Proof. intros E. unfold mbind, M_bind. now rewrite E. Qed.

Lemma bind_inl (m : M A) (f : A -> M B) st e st' :
  m st = (inl e, st') -> (m ≫= f) st = (inl e, st').
Proof. intros E. unfold mbind, M_bind. now rewrite E. Qed.

Lemma bind_ret (a : A) (f : A -> M B) st : (mret a ≫= f) st = f a st.
Proof. reflexivity. Qed.

Lemma bind_cases (m : M A) (f : A -> M B) st :
  (exists a st', m st = (inr a, st') /\ (m ≫= f) st = f a st') \/
  (exists e st', m st = (inl e, st') /\ (m ≫= f) st = (inl e, st')).
Proof.
  unfold mbind, M_bind. destruct (m st) as [[e | a] st'] eqn:E.
  - right. now exists e, st'.
  - left. now exists a, st'.
Qed.
End MonadFacts.

Section Preservation.
Context (R : state -> state -> Prop) `{!PreOrder R}.

Lemma preserves_ret {A} (a : A) : preserves R (mret a).
Proof. intros st. simpl. reflexivity. Qed.

Lemma preserves_raise {A} e : preserves R (@raise A e).
Proof. intros st. simpl. reflexivity. Qed.

Lemma preserves_lift {A} (r : exn + A) : preserves R (lift r).
Proof. intros st. simpl. reflexivity. Qed.

Lemma preserves_get_state : preserves R get_state.
Proof. intros st. simpl. reflexivity. Qed.

Lemma preserves_bind {A B} (m : M A) (f : A -> M B) :
  preserves R m -> (forall a, preserves R (f a)) -> preserves R (m ≫= f).
Proof.
  intros Hm Hf st. specialize (Hm st).
  destruct (bind_cases m f st) as [(a & st' & E & ->) | (e & st' & E & ->)];
    rewrite E in Hm; simpl in *.
  - etransitivity; [exact Hm | apply Hf].
  - exact Hm.
Qed.
End Preservation.

Section Raising.
Context (P : exn -> Prop).

Lemma raises_only_ret {A} (a : A) : raises_only P (mret a).
Proof. intros st e. discriminate. Qed.

Lemma raises_only_raise {A} e : P e -> raises_only P (@raise A e).
Proof. intros He st e' [= <-]. exact He. Qed.

Lemma raises_only_bind {A B} (m : M A) (f : A -> M B) :
  raises_only P m -> (forall a, raises_only P (f a)) -> raises_only P (m ≫= f).
Proof.
  intros Hm Hf st e.
  destruct (bind_cases m f st) as [(a & st' & E & ->) | (e' & st' & E & ->)].
  - apply Hf.
  - intros [= <-]. apply (Hm st). now rewrite E.
Qed.
End Raising.

Lemma surjective_pairing_with_fst {A B} (p : A * B) (a : A) :
  fst p = a -> p = (a, snd p).
Proof. intros <-. now destruct p. Qed.

(** ** Strings *)

Lemma append_assoc (a b c : string) : (a +:+ b) +:+ c = a +:+ (b +:+ c).
Proof.
  induction a as [| x a IH]; [reflexivity |].
  change (String x ((a +:+ b) +:+ c) = String x (a +:+ (b +:+ c))).
  now f_equal.
Qed.

Lemma length_append (a b : string) :
  String.length (a +:+ b) = (String.length a + String.length b)%nat.
Proof.
  induction a as [| x a IH]; [reflexivity |].
  change (S (String.length (a +:+ b)) = S (String.length a + String.length b)).
  now f_equal.
Qed.

(** ** The generated token *)

Module UuidFacts.
Import Uuid.
Local Open Scope N_scope.

Lemma hex_digit_is_hex d : d < 16 -> is_hex_char (hex_digit d) = true.
Proof.
  intros Hd. unfold hex_digit.
  assert (Hn : (N.to_nat d < 16)%nat) by lia.
  revert Hn. generalize (N.to_nat d) as n. intros n Hn.
  do 16 (destruct n as [| n]; [reflexivity |]). lia.
Qed.

Lemma is_hex_string_app a b :
  is_hex_string (a +:+ b) = is_hex_string a && is_hex_string b.
Proof.
  induction a as [| c a IH]; [reflexivity |].
  change (is_hex_char c && is_hex_string (a +:+ b)
          = is_hex_char c && is_hex_string a && is_hex_string b).
  now rewrite IH, andb_assoc.
Qed.

Lemma hex_digits_is_hex fuel n acc :
  is_hex_string acc = true -> is_hex_string (hex_digits fuel n acc) = true.
Proof.
  revert n acc. induction fuel as [| fuel IH]; intros n acc Hacc; simpl.
  - exact Hacc.
  - destruct (n =? 0); [exact Hacc |]. apply IH.
    change (is_hex_char (hex_digit (n mod 16)) && is_hex_string acc = true).
    rewrite Hacc, andb_true_r. apply hex_digit_is_hex.
    apply N.mod_lt. discriminate.
Qed.

Lemma hex_digits_length fuel n acc (k : nat) :
  n < 16 ^ N.of_nat k ->
  (String.length (hex_digits fuel n acc) <= String.length acc + k)%nat.
Proof.
  revert n acc k. induction fuel as [| fuel IH]; intros n acc k Hn; simpl.
  - lia.
  - destruct (N.eqb_spec n 0) as [-> | Hnz]; [lia |].
    destruct k as [| k].
    + simpl in Hn. lia.
    + assert (Hdiv : n / 16 < 16 ^ N.of_nat k).
      { apply N.Div0.div_lt_upper_bound.
        rewrite Nat2N.inj_succ, N.pow_succ_r' in Hn. exact Hn. }
      specialize (IH (n / 16) (String (hex_digit (n mod 16)) acc) k Hdiv).
      simpl in IH. lia.
Qed.

Lemma to_hex_length n : n < 2 ^ 128 -> (String.length (to_hex n) <= 32)%nat.
Proof.
  intros Hn. unfold to_hex. destruct (n =? 0); [simpl; lia |].
  apply (hex_digits_length _ n EmptyString 32). exact Hn.
Qed.

Lemma to_hex_is_hex n : is_hex_string (to_hex n) = true.
Proof.
  unfold to_hex. destruct (n =? 0); [reflexivity |].
  now apply hex_digits_is_hex.
Qed.

Lemma replicate_char_length k c : String.length (replicate_char k c) = k.
Proof. induction k as [| k IH]; simpl; [reflexivity | now rewrite IH]. Qed.

Lemma replicate_zero_is_hex k : is_hex_string (replicate_char k "0") = true.
Proof. induction k as [| k IH]; [reflexivity | exact IH]. Qed.

Lemma lor_lt_pow2 a b n : 0 < n -> a < 2 ^ n -> b < 2 ^ n -> N.lor a b < 2 ^ n.
Proof.
  intros Hn Ha Hb.
  destruct (N.eq_dec (N.lor a b) 0) as [-> | Hnz].
  - apply N.neq_0_lt_0. apply N.pow_nonzero. discriminate.
  - apply N.log2_lt_pow2; [lia |].
    rewrite N.log2_lor. apply N.max_lub_lt.
    + destruct (N.eq_dec a 0) as [-> | Ha0]; [exact Hn |].
      apply N.log2_lt_pow2; [lia | exact Ha].
    + destruct (N.eq_dec b 0) as [-> | Hb0]; [exact Hn |].
      apply N.log2_lt_pow2; [lia | exact Hb].
Qed.

Lemma uuid4_int_bound r : r < 2 ^ 128 -> uuid4_int r < 2 ^ 128.
Proof.
  intros Hr. unfold uuid4_int.
  apply lor_lt_pow2; [reflexivity | | reflexivity].
  eapply N.le_lt_trans; [apply N.ldiff_le_l |].
  apply lor_lt_pow2; [reflexivity | | reflexivity].
  eapply N.le_lt_trans; [apply N.ldiff_le_l | exact Hr].
Qed.

Lemma urandom16_bound W i : urandom16 W i < 2 ^ 128.
Proof. unfold urandom16. apply N.mod_lt. discriminate. Qed.

(** The token is thirty-two hexadecimal digits whatever bytes were
    drawn. *)
Lemma format_032x_uuid4 W i :
  let token := format_032x (uuid4_int (urandom16 W i)) in
  String.length token = 32%nat /\ is_hex_string token = true.
Proof.
  intros token. unfold token, format_032x, zfill.
  pose proof (to_hex_length _ (uuid4_int_bound _ (urandom16_bound W i))) as Hlen.
  split.
  - rewrite length_append, replicate_char_length. lia.
  - rewrite is_hex_string_app, replicate_zero_is_hex. apply to_hex_is_hex.
Qed.
End UuidFacts.

(** ** The always-true filter *)

Lemma always_true_eval entity p s :
  entity !! p = Some (Expr.FVarchar s) ->
  Expr.eval_expr entity (always_true p) = Some true.
Proof.
  intros E. simpl. rewrite E. f_equal. apply orb_negb_r.
Qed.

(** C10: for every primary-key name [p], [always_true_expr p] is exactly
    the documented text with [p] substituted; that text is the concrete
    syntax of "[p] is in ["1"] or [p] is not in ["1"]", which evaluates to
    true on every entity whatever string its field [p] holds, so that
    filtering by it keeps every entity. *)
Theorem always_true_expr_is_tautology (p : string) :
  always_true_expr p = substitute "p" p always_true_template /\
  always_true_expr p = Expr.print_expr (always_true p) /\
  (forall (entity : gmap string Expr.field_value) (s : string),
      entity !! p = Some (Expr.FVarchar s) ->
      Expr.eval_expr entity (always_true p) = Some true) /\
  (forall entities : list (gmap string Expr.field_value),
      Forall (fun entity => exists s, entity !! p = Some (Expr.FVarchar s)) entities ->
      Expr.select (always_true p) entities = entities).
Proof.
  split; [reflexivity |]. split; [| split].
  - unfold always_true_expr, always_true. simpl.
    now rewrite !append_assoc.
  - intros entity s. apply always_true_eval.
  - intros entities Hall. unfold Expr.select.
    induction Hall as [| entity rest [s Hs] _ IH]; [reflexivity |].
    rewrite filter_cons_True by (eapply always_true_eval; eassumption).
    now rewrite IH.
Qed.

Lemma always_true_expr_is_tautology_witness :
  let entity : gmap string Expr.field_value :=
    {[ "document_id" := Expr.FVarchar "1" ]} in
  Expr.eval_expr entity (always_true "document_id") = Some true /\
  Expr.select (always_true "document_id") [entity] = [entity].
Proof.
  intros entity.
  destruct (always_true_expr_is_tautology "document_id") as (_ & _ & Hev & Hsel).
  split.
  - apply (Hev entity "1"). reflexivity.
  - apply (Hsel [entity]). repeat constructor. exists "1". reflexivity.
Defined.

(** ** The payload codec *)

Section PayloadCodecFacts.
Context {D T : Type} `{DocumentLike D T}.

(** With the adapter's configuration in place, serializing reads the
    options and changes nothing. *)
Lemma serialize_run (doc : D) st l cfg :
  _config (self st) = Some l ->
  heap st !! l = Some (OConfig cfg) ->
  serialize doc st = (to_base64 (serialize_config cfg) doc, st).
Proof.
  intros Hself Hheap.
  unfold serialize, self_config, config_of, deref, get_state, lift,
    mbind, M_bind, mret, M_ret.
  now rewrite Hself, Hheap.
Qed.

Lemma comprehension_serialize (docs : list D) st l cfg :
  _config (self st) = Some l ->
  heap st !! l = Some (OConfig cfg) ->
  Forall (fun doc => exists s, to_base64 (serialize_config cfg) doc = inr s) docs ->
  exists ss,
    comprehension serialize docs st = (inr ss, st) /\
    Forall2 (fun doc s => to_base64 (serialize_config cfg) doc = inr s) docs ss.
Proof.
  intros Hself Hheap Hall.
  induction Hall as [| doc docs [s Hs] _ (ss & Hrun & Hss)].
  - exists []. split; [reflexivity | constructor].
  - exists (s :: ss). split; [| now constructor].
    change (comprehension serialize (doc :: docs))
      with (b ← serialize doc; bs ← comprehension serialize docs; mret (b :: bs)).
    erewrite bind_inr by (erewrite serialize_run by eassumption; rewrite Hs; reflexivity).
    erewrite bind_inr by exact Hrun.
    reflexivity.
Qed.

(** When line 143 gives a column, it is the embeddings of the
    documents, in order, and there is at least one document. *)
Lemma embeddings_column_rows (docs : list D) rows :
  embeddings_column docs = inr rows ->
  rows = column embedding_of docs /\ docs <> [].
Proof.
  unfold embeddings_column, embeddings.
  destruct docs as [| first rest]; [discriminate |]. cbv zeta.
  destruct (embedding_of first) as [t0 |].
  - destruct (forallb (has_shape_of t0) (column embedding_of (first :: rest)));
      [| discriminate].
    simpl. now intros [= <-].
  - destruct (forallb is_unset (column embedding_of (first :: rest)));
      [discriminate |].
    simpl. now intros [= <-].
Qed.


(** Whatever the adapter, a batch none of whose documents has an
    embedding, the empty batch among them, stops at line 143. *)
Lemma embeddings_column_unset (docs : list D) :
  Forall (fun doc => embedding_of doc = None) docs ->
  embeddings_column docs = inl (TypeError "'NoneType' object is not iterable").
Proof.
  intros Hall. unfold embeddings_column, embeddings.
  destruct docs as [| first rest]; [reflexivity |]. cbv zeta.
  rewrite (Forall_inv Hall).
  assert (Hnone : forallb is_unset (column embedding_of (first :: rest)) = true).
  { unfold column. apply forallb_forall. intros e He.
    apply in_map_iff in He as (doc & <- & Hin).
    rewrite Forall_forall in Hall.
    rewrite (Hall doc); [reflexivity | now apply list_elem_of_In]. }
  now rewrite Hnone.
Qed.


End PayloadCodecFacts.

(** ** The subindex namer *)

Lemma dict_of_run l d st :
  heap st !! l = Some (ODict d) -> dict_of l st = (inr d, st).
Proof.
  intros E. unfold dict_of, deref, mbind, M_bind. now rewrite E.
Qed.

Lemma contains_run l key d st :
  heap st !! l = Some (ODict d) ->
  contains l key st = (inr (bool_decide (is_Some (d !! key))), st).
Proof.
  intros E. unfold contains. now rewrite (bind_inr _ _ _ _ _ (dict_of_run _ _ _ E)).
Qed.

Lemma getitem_run l key d v st :
  heap st !! l = Some (ODict d) -> d !! key = Some v ->
  getitem l key st = (inr v, st).
Proof.
  intros E Hv. unfold getitem.
  rewrite (bind_inr _ _ _ _ _ (dict_of_run _ _ _ E)). now rewrite Hv.
Qed.

Lemma setitem_run l key v d st :
  heap st !! l = Some (ODict d) ->
  setitem l key v st
  = (inr tt, with_heap (<[l := ODict (<[key := v]> d)]> (heap st)) st).
Proof.
  intros E. unfold setitem.
  now rewrite (bind_inr _ _ _ _ _ (dict_of_run _ _ _ E)).
Qed.

(** The renaming of lines 127-130, as an equation. *)
Lemma ensure_unique_config_renames
    (st : state) (config_root config_subindex config_joined : loc)
    (subindex_name name : string) (sub joined : gmap string pyval) :
  heap st !! config_subindex = Some (ODict sub) ->
  heap st !! config_joined = Some (ODict joined) ->
  sub !! "collection_name" = None ->
  joined !! "collection_name" = Some (PStr name) ->
  _ensure_unique_config config_root config_subindex config_joined subindex_name st
  = (inr config_joined,
     with_heap
       (<[config_joined :=
            ODict (<["collection_name" :=
                       PStr (name +:+ "_subindex_" +:+ subindex_name)]> joined)]>
          (heap st)) st).
Proof.
  intros Hsub Hjoined Hno Hname. unfold _ensure_unique_config.
  rewrite (bind_inr _ _ _ _ _ (contains_run _ _ _ _ Hsub)).
  rewrite Hno, bool_decide_eq_false_2 by (intros [? [=]]). simpl.
  erewrite bind_inr; [reflexivity |].
  rewrite (bind_inr _ _ _ _ _ (getitem_run _ _ _ _ _ Hjoined Hname)).
  unfold add_str. rewrite !bind_ret.
  rewrite (setitem_run _ _ _ _ _ Hjoined).
  now rewrite append_assoc.
Qed.

(** C3: for a root mapping, a subindex mapping and their provisional
    join (the root's entries overridden by the subindex's): if the
    subindex mapping has no ["collection_name"] key, the joined mapping is
    returned with the root's collection name followed by ["_subindex_"]
    and the subindex identifier as its collection name, its other entries
    unchanged; if the subindex mapping has the key, the joined mapping is
    returned as it is, with the subindex's own collection name. *)
Theorem ensure_unique_config_on_join
    (st : state) (config_root config_subindex config_joined : loc)
    (subindex_name : string) (root sub : gmap string pyval) :
  heap st !! config_root = Some (ODict root) ->
  heap st !! config_subindex = Some (ODict sub) ->
  heap st !! config_joined = Some (ODict (sub ∪ root)) ->
  (forall root_name,
      root !! "collection_name" = Some (PStr root_name) ->
      sub !! "collection_name" = None ->
      exists st' d,
        _ensure_unique_config config_root config_subindex config_joined
          subindex_name st = (inr config_joined, st') /\
        heap st' !! config_joined = Some (ODict d) /\
        d !! "collection_name"
        = Some (PStr (root_name +:+ "_subindex_" +:+ subindex_name)) /\
        (forall key, key <> "collection_name" -> d !! key = (sub ∪ root) !! key)) /\
  (is_Some (sub !! "collection_name") ->
   _ensure_unique_config config_root config_subindex config_joined
     subindex_name st = (inr config_joined, st) /\
   (sub ∪ root) !! "collection_name" = sub !! "collection_name").
Proof.
  intros Hroot Hsub Hjoined. split.
  - intros root_name Hname Hno.
    assert (Hjoin : (sub ∪ root) !! "collection_name" = Some (PStr root_name)).
    { now rewrite lookup_union_r. }
    eexists _, _. split.
    + now apply (ensure_unique_config_renames st _ _ _ subindex_name root_name
                   sub (sub ∪ root)).
    + simpl. rewrite lookup_insert_eq. split; [reflexivity |].
      split; [apply lookup_insert_eq |].
      intros key Hkey. now rewrite lookup_insert_ne.
  - intros Hsome. split.
    + unfold _ensure_unique_config.
      rewrite (bind_inr _ _ _ _ _ (contains_run _ _ _ _ Hsub)).
      rewrite bool_decide_eq_true_2 by exact Hsome. reflexivity.
    + destruct Hsome as [v Hv]. rewrite Hv. now apply lookup_union_Some_l.
Qed.

(** ** Configuration resolution *)

Lemma fresh_loc_unused (h : gmap loc object) : h !! fresh (dom h) = None.
Proof. apply not_elem_of_dom. apply is_fresh. Qed.

Lemma insert_fresh_keeps (h : gmap loc object) o l o0 :
  h !! l = Some o0 -> <[fresh (dom h) := o]> h !! l = Some o0.
Proof.
  intros E. rewrite lookup_insert_ne; [exact E |].
  intros <-. rewrite fresh_loc_unused in E. discriminate.
Qed.

Lemma deepcopy_run l o st :
  heap st !! l = Some o ->
  deepcopy (Some l) st
  = (inr (Some (fresh (dom (heap st)))),
     with_heap (<[fresh (dom (heap st)) := o]> (heap st)) st).
Proof.
  intros E. unfold deepcopy, deref, alloc, mbind, M_bind. now rewrite E.
Qed.

Lemma config_of_run attr l c st :
  heap st !! l = Some (OConfig c) -> config_of attr l st = (inr c, st).
Proof.
  intros E. unfold config_of, deref, mbind, M_bind. now rewrite E.
Qed.

Section Resolution.
Variable W : World.

Lemma normalize_config_instance l c st :
  heap st !! l = Some (OConfig c) ->
  normalize_config (Some l) st = (inr l, st).
Proof.
  intros E. unfold normalize_config, deref, mbind, M_bind. now rewrite E.
Qed.

Lemma normalize_config_mapping l d st :
  heap st !! l = Some (ODict d) ->
  normalize_config (Some l) st
  = if Nat.eqb (size d) 0 then (inl (ValueError empty_config_message), st)
    else match dataclass_from_dict d with
         | inl e => (inl e, st)
         | inr c =>
             (inr (fresh (dom (heap st))),
              with_heap (<[fresh (dom (heap st)) := OConfig c]> (heap st)) st)
         end.
Proof.
  intros E. unfold normalize_config, deref, mbind, M_bind, lift, alloc.
  rewrite E. simpl. destruct (Nat.eqb (size d) 0); [reflexivity |]. simpl.
  now destruct (dataclass_from_dict d).
Qed.

Lemma assign_collection_name_run l c st :
  heap st !! l = Some (OConfig c) ->
  assign_collection_name W l st
  = (inr tt,
     match collection_name c with
     | Some _ => st
     | None =>
         mkState (<[l := OConfig (with_resolved_name W (draws st) c)]> (heap st))
           (self st) (log st) (S (draws st))
     end).
Proof.
  intros E. unfold assign_collection_name.
  rewrite (bind_inr _ _ _ _ _ (config_of_run _ _ _ _ E)).
  unfold with_resolved_name.
  destruct (collection_name c) as [name |]; [reflexivity |].
  unfold uuid4_hex, setattr_collection_name, store, modify.
  erewrite bind_inr by reflexivity.
  erewrite bind_inr by (apply config_of_run; exact E).
  reflexivity.
Qed.

(** What lines 49-57 do to a configuration that is given, not empty,
    and stands for the record [c]: a new object holds [c] with its name
    resolved; the objects that existed are as they were. *)
Lemma resolve_config_resolves l o c st :
  heap st !! l = Some o ->
  truthy o = true ->
  as_config o = inr c ->
  exists l' st',
    resolve_config W (Some l) st = (inr l', st') /\
    heap st !! l' = None /\
    heap st' !! l' = Some (OConfig (with_resolved_name W (draws st) c)) /\
    objects_kept st st' /\
    self st' = self st /\ log st' = log st /\
    draws st' = match collection_name c with
                | Some _ => draws st
                | None => S (draws st)
                end.
Proof.
  intros Hl Htrue Hc. unfold resolve_config.
  rewrite (bind_inr _ _ _ _ _ (deepcopy_run _ _ _ Hl)).
  set (l1 := fresh (dom (heap st))).
  set (st1 := with_heap (<[l1 := o]> (heap st)) st).
  assert (H1 : heap st1 !! l1 = Some o) by apply lookup_insert_eq.
  assert (Hk1 : objects_kept st st1).
  { intros l0 o0 E. now apply insert_fresh_keeps. }
  destruct o as [d | c0]; simpl in Hc, Htrue.
  - (* a mapping *)
    pose proof (normalize_config_mapping _ _ _ H1) as Hn.
    apply negb_true_iff in Htrue. rewrite Htrue, Hc in Hn.
    rewrite (bind_inr _ _ _ _ _ Hn).
    set (l2 := fresh (dom (heap st1))).
    set (st2 := with_heap (<[l2 := OConfig c]> (heap st1)) st1).
    assert (H2 : heap st2 !! l2 = Some (OConfig c)) by apply lookup_insert_eq.
    assert (Hk2 : objects_kept st1 st2).
    { intros l0 o0 E. now apply insert_fresh_keeps. }
    rewrite (bind_inr _ _ _ _ _ (assign_collection_name_run _ _ _ H2)).
    eexists l2, _. split; [reflexivity |].
    assert (Hfresh : heap st !! l2 = None).
    { destruct (heap st !! l2) as [o0 |] eqn:E; [| reflexivity].
      apply Hk1 in E. unfold l2 in E. now rewrite fresh_loc_unused in E. }
    split; [exact Hfresh |].
    unfold with_resolved_name.
    destruct (collection_name c) as [name |] eqn:Hname.
    + repeat split; try reflexivity; [exact H2 |].
      intros l0 o0 E. now apply Hk2, Hk1.
    + repeat split; try reflexivity.
      * simpl. now rewrite lookup_insert_eq.
      * intros l0 o0 E. simpl. rewrite lookup_insert_ne.
        -- now apply Hk2, Hk1.
        -- intros <-. rewrite Hfresh in E. discriminate.
  - (* a dataclass instance *)
    injection Hc as ->.
    rewrite (bind_inr _ _ _ _ _ (normalize_config_instance _ _ _ H1)).
    rewrite (bind_inr _ _ _ _ _ (assign_collection_name_run _ _ _ H1)).
    eexists l1, _. split; [reflexivity |].
    split; [apply fresh_loc_unused |].
    unfold with_resolved_name.
    destruct (collection_name c) as [name |] eqn:Hname.
    + repeat split; try reflexivity; [exact H1 | exact Hk1].
    + repeat split; try reflexivity.
      * simpl. now rewrite lookup_insert_eq.
      * intros l0 o0 E. simpl. rewrite lookup_insert_ne.
        -- now apply Hk1.
        -- intros <-. unfold l1 in E. rewrite fresh_loc_unused in E. discriminate.
Qed.
End Resolution.

Lemma sum_bind_inl {E A B} (r : E + A) (f : A -> E + B) e :
  sum_bind r f = inl e -> r = inl e \/ exists a, r = inr a /\ f a = inl e.
Proof.
  destruct r as [e' | a]; simpl; intros E0.
  - left. now injection E0 as ->.
  - right. eauto.
Qed.

(** Deserialization raises [KeyError] or [TypeError], never the refusal
    of an empty configuration. *)
Lemma dataclass_from_dict_error d e :
  dataclass_from_dict d = inl e -> not_empty_config_error e.
Proof.
  unfold dataclass_from_dict, not_empty_config_error.
  destruct (unknown_keys d); [| intros [= <-]; discriminate].
  unfold read_required_int, read_opt_str, read_str, read_port, read_opt_dict,
    read_dict, invalid_field.
  intros E.
  repeat match type of E with
         | sum_bind _ _ = inl _ =>
             apply sum_bind_inl in E; destruct E as [E | (? & _ & E)]
         end;
    repeat match type of E with
           | match ?x with _ => _ end = inl _ => destruct x
           end;
    try discriminate; injection E as <-; discriminate.
Qed.

Section ResolutionFailures.
Variable W : World.

Lemma resolve_config_none st :
  resolve_config W None st = (inl (ValueError empty_config_message), st).
Proof. reflexivity. Qed.

Lemma resolve_config_dangling l st :
  heap st !! l = None ->
  resolve_config W (Some l) st = (inl (InvalidReference l), st).
Proof.
  intros E. unfold resolve_config, deepcopy, deref, mbind, M_bind.
  now rewrite E.
Qed.

Lemma resolve_config_refuses l o st :
  heap st !! l = Some o ->
  truthy o = false ->
  resolve_config W (Some l) st
  = (inl (ValueError empty_config_message),
     with_heap (<[fresh (dom (heap st)) := o]> (heap st)) st).
Proof.
  intros Hl Hfalse. unfold resolve_config.
  rewrite (bind_inr _ _ _ _ _ (deepcopy_run _ _ _ Hl)).
  erewrite bind_inl; [reflexivity |].
  unfold normalize_config, deref, mbind, M_bind. simpl.
  rewrite lookup_insert_eq, Hfalse. reflexivity.
Qed.

Lemma resolve_config_invalid l o e st :
  heap st !! l = Some o ->
  truthy o = true ->
  as_config o = inl e ->
  resolve_config W (Some l) st
  = (inl e, with_heap (<[fresh (dom (heap st)) := o]> (heap st)) st).
Proof.
  intros Hl Htrue He. unfold resolve_config.
  rewrite (bind_inr _ _ _ _ _ (deepcopy_run _ _ _ Hl)).
  erewrite bind_inl; [reflexivity |].
  destruct o as [d | c]; [| discriminate]. simpl in He, Htrue.
  erewrite normalize_config_mapping by apply lookup_insert_eq.
  apply negb_true_iff in Htrue. now rewrite Htrue, He.
Qed.

(** Whatever its outcome, resolution keeps every object that existed
    and touches neither the adapter nor the log. *)
Lemma resolve_config_frame config st :
  let st' := snd (resolve_config W config st) in
  objects_kept st st' /\ self st' = self st /\ log st' = log st.
Proof.
  assert (Hcopy : forall o,
    objects_kept st (with_heap (<[fresh (dom (heap st)) := o]> (heap st)) st)).
  { intros o l0 o0 E. now apply insert_fresh_keeps. }
  destruct config as [l |]; [| now repeat split].
  destruct (heap st !! l) as [o |] eqn:Hl.
  - destruct (truthy o) eqn:Htruthy.
    + destruct (as_config o) as [e | c] eqn:Hc.
      * rewrite (resolve_config_invalid _ _ _ _ Hl Htruthy Hc).
        split; [apply Hcopy | now split].
      * destruct (resolve_config_resolves W _ _ _ _ Hl Htruthy Hc)
          as (l' & st' & -> & _ & _ & Hkept & Hself & Hlog & _).
        now repeat split.
    + rewrite (resolve_config_refuses _ _ _ Hl Htruthy).
      split; [apply Hcopy | now split].
  - rewrite (resolve_config_dangling _ _ Hl). now repeat split.
Qed.
End ResolutionFailures.

(** ** Binding, connecting and provisioning (lines 58-68) *)

Global Instance same_memory_preorder : PreOrder same_memory.
Proof.
  split.
  - intros st. now split.
  - intros a b c [H1 H2] [H3 H4]. split; congruence.
Qed.

Global Instance same_config_preorder : PreOrder same_config.
Proof.
  split.
  - intros st. reflexivity.
  - intros a b c H1 H2. unfold same_config in *. congruence.
Qed.

Global Instance log_extended_preorder : PreOrder log_extended.
Proof.
  split.
  - intros st. exists []. now rewrite app_nil_r.
  - intros a b c [l1 H1] [l2 H2]. exists (l1 ++ l2).
    now rewrite H2, H1, app_assoc.
Qed.

Section Primitives.
Context (R : state -> state -> Prop) `{!PreOrder R}.

Lemma preserves_deref l : preserves R (deref l).
Proof. intros st. unfold deref. destruct (heap st !! l); simpl; reflexivity. Qed.

Lemma preserves_modify f : (forall st, R st (f st)) -> preserves R (modify f).
Proof. intros Hf st. apply Hf. Qed.

Lemma preserves_external W c :
  (forall st, R st (with_log (log st ++ [c]) st)) -> preserves R (external c W).
Proof.
  intros Hc st. unfold external. destruct (accepts W (log st) c); apply Hc.
Qed.
End Primitives.

Section PrimitivesRaising.
Context (P : exn -> Prop).

Lemma raises_only_lift {A} (r : exn + A) :
  (forall e, r = inl e -> P e) -> raises_only P (lift r).
Proof. intros Hr st e E. now apply Hr. Qed.

Lemma raises_only_get_state : raises_only P get_state.
Proof. intros st e. discriminate. Qed.

Lemma raises_only_modify f : raises_only P (modify f).
Proof. intros st e. discriminate. Qed.

Lemma raises_only_deref l : P (InvalidReference l) -> raises_only P (deref l).
Proof.
  intros Hl st e. unfold deref. destruct (heap st !! l); simpl; [discriminate |].
  now intros [= <-].
Qed.

Lemma raises_only_external W c :
  P (ExternalError c) -> raises_only P (external c W).
Proof.
  intros Hc st e. unfold external.
  destruct (accepts W (log st) c); simpl; [discriminate |]. now intros [= <-].
Qed.
End PrimitivesRaising.

(** Goals [preserves R m] for a straight-line [m]; [tac] proves [R] of
    the single steps that write. *)
Ltac prove_preserves tac :=
  repeat match goal with
         | |- PreOrder _ => typeclasses eauto
         | |- forall _, _ => intros ?
         | |- preserves _ (match ?x with _ => _ end) => destruct x
         | |- preserves _ _ =>
             first [ progress cbv zeta
                   | apply preserves_ret | apply preserves_raise
                   | apply preserves_lift | apply preserves_get_state
                   | apply preserves_deref | apply preserves_bind
                   | apply preserves_external | apply preserves_modify ]
         | |- _ => tac
         end.

Ltac prove_raises_only :=
  repeat match goal with
         | |- _ <> _ => discriminate
         | |- forall _, _ => intros ?
         | |- raises_only _ (match ?x with _ => _ end) => destruct x
         | |- raises_only _ _ =>
             first [ progress cbv zeta
                   | apply raises_only_ret | apply raises_only_get_state
                   | apply raises_only_modify | apply raises_only_raise
                   | apply raises_only_deref | apply raises_only_external
                   | apply raises_only_bind ]
         end.

Section InitResolved.
Variables (W : World) (config : loc) (kwargs : gmap string pyval).

Lemma init_resolved_same_memory : preserves same_memory (init_resolved W config kwargs).
Proof.
  unfold init_resolved, _create_or_reuse_collection,
    _create_or_reuse_offset2id_collection, Collection_new, self_config,
    self_connection_alias, config_of, set_self.
  prove_preserves ltac:(now split).
Qed.

Lemma init_resolved_log_extended :
  preserves log_extended (init_resolved W config kwargs).
Proof.
  unfold init_resolved, _create_or_reuse_collection,
    _create_or_reuse_offset2id_collection, Collection_new, self_config,
    self_connection_alias, config_of, set_self.
  prove_preserves ltac:(first [ now eexists | exists []; simpl; now rewrite app_nil_r ]).
Qed.

Lemma init_resolved_raises :
  raises_only not_empty_config_error (init_resolved W config kwargs).
Proof.
  unfold init_resolved, _create_or_reuse_collection,
    _create_or_reuse_offset2id_collection, Collection_new, self_config,
    self_connection_alias, config_of, set_self, not_empty_config_error.
  prove_raises_only.
Qed.

(** Whatever happens afterwards, the adapter is bound to the resolved
    configuration. *)
Lemma init_resolved_binds st :
  _config (self (snd (init_resolved W config kwargs st))) = Some config.
Proof.
  unfold init_resolved.
  erewrite bind_inr by reflexivity.
  match goal with
  | |- _config (self (snd (?m ?s))) = _ =>
      assert (Hp : preserves same_config m)
  end.
  { unfold _create_or_reuse_collection, _create_or_reuse_offset2id_collection,
      Collection_new, self_config, self_connection_alias, config_of, set_self.
    prove_preserves ltac:(reflexivity). }
  rewrite Hp. reflexivity.
Qed.
End InitResolved.

(** ** Provisioning (lines 70-118) *)

Lemma self_config_run attr l cfg st :
  _config (self st) = Some l ->
  heap st !! l = Some (OConfig cfg) ->
  self_config attr st = (inr cfg, st).
Proof.
  intros Hself Hheap. unfold self_config, get_state, mbind, M_bind.
  rewrite Hself. now apply config_of_run.
Qed.

Lemma self_connection_alias_run alias st :
  _connection_alias (self st) = Some alias ->
  self_connection_alias st = (inr alias, st).
Proof.
  intros E. unfold self_connection_alias, get_state, mbind, M_bind. now rewrite E.
Qed.

Section Provisioning.
Variable W : World.

Lemma Collection_new_run name schema alias kwargs st :
  repeated_keywords kwargs = [] ->
  Collection_new W name schema alias kwargs st
  = requested W (mkCollection name schema alias kwargs) st.
Proof.
  intros E. unfold Collection_new, requested, external, mbind, M_bind.
  rewrite E. now destruct (accepts W (log st) _).
Qed.

Lemma create_or_reuse_collection_run st l cfg alias :
  _config (self st) = Some l ->
  heap st !! l = Some (OConfig cfg) ->
  _connection_alias (self st) = Some alias ->
  repeated_keywords (collection_config cfg) = [] ->
  _create_or_reuse_collection W st
  = requested W
      (mkCollection (collection_name cfg)
         (mkCollectionSchema
            [mkFieldSchema "document_id" VARCHAR (Some 1024) None true;
             mkFieldSchema "embedding" FLOAT_VECTOR None (Some (n_dim cfg)) false;
             mkFieldSchema "serialized" VARCHAR (Some 65535) None false]
            "DocumentArray collection")
         alias (collection_config cfg)) st.
Proof.
  intros Hself Hheap Halias Hkw. unfold _create_or_reuse_collection. cbv zeta.
  rewrite (bind_inr _ _ _ _ _ (self_config_run _ _ _ _ Hself Hheap)).
  rewrite (bind_inr _ _ _ _ _ (self_config_run _ _ _ _ Hself Hheap)).
  rewrite (bind_inr _ _ _ _ _ (self_connection_alias_run _ _ Halias)).
  rewrite (bind_inr _ _ _ _ _ (self_config_run _ _ _ _ Hself Hheap)).
  now apply Collection_new_run.
Qed.

Lemma create_or_reuse_offset2id_collection_run st l cfg alias name :
  _config (self st) = Some l ->
  heap st !! l = Some (OConfig cfg) ->
  _connection_alias (self st) = Some alias ->
  collection_name cfg = Some name ->
  _create_or_reuse_offset2id_collection W st
  = requested W
      (mkCollection (Some (name +:+ "_offset2id"))
         (mkCollectionSchema
            [mkFieldSchema "offset" VARCHAR (Some 1024) None true;
             mkFieldSchema "document_id" VARCHAR (Some 1024) None false;
             mkFieldSchema "dummy_vector" FLOAT_VECTOR None (Some 1) false]
            "offset2id for DocumentArray")
         alias ∅) st.
Proof.
  intros Hself Hheap Halias Hname.
  unfold _create_or_reuse_offset2id_collection. cbv zeta.
  rewrite (bind_inr _ _ _ _ _ (self_config_run _ _ _ _ Hself Hheap)).
  rewrite Hname, bind_ret.
  rewrite (bind_inr _ _ _ _ _ (self_connection_alias_run _ _ Halias)).
  now apply Collection_new_run.
Qed.
End Provisioning.

(** One run of lines 58-68 in a world that accepts every call. *)
Lemma init_resolved_accepted (W : World) (config : loc) (kwargs : gmap string pyval)
    (cfg : MilvusConfig) (name : string) (st : state) :
  (forall calls c, accepts W calls c = true) ->
  heap st !! config = Some (OConfig cfg) ->
  collection_name cfg = Some name ->
  repeated_keywords (collection_config cfg) = [] ->
  let alias := "docarray_default_connection" in
  let primary :=
    mkCollection (Some name)
      (mkCollectionSchema
         [mkFieldSchema "document_id" VARCHAR (Some 1024) None true;
          mkFieldSchema "embedding" FLOAT_VECTOR None (Some (n_dim cfg)) false;
          mkFieldSchema "serialized" VARCHAR (Some 65535) None false]
         "DocumentArray collection")
      alias (collection_config cfg) in
  let offset2id :=
    mkCollection (Some (name +:+ "_offset2id"))
      (mkCollectionSchema
         [mkFieldSchema "offset" VARCHAR (Some 1024) None true;
          mkFieldSchema "document_id" VARCHAR (Some 1024) None false;
          mkFieldSchema "dummy_vector" FLOAT_VECTOR None (Some 1) false]
         "offset2id for DocumentArray")
      alias ∅ in
  init_resolved W config kwargs st
  = (inr tt,
     mkState (heap st)
       (mkSelf (Some config) (Some alias) (Some primary) (Some offset2id))
       (log st ++ [Connect alias (host cfg) (port cfg); CreateCollection primary;
                   CreateCollection offset2id; SuperInitStorage config kwargs])
       (draws st)).
Proof.
  intros Hacc Hheap Hname Hkw alias primary offset2id.
  unfold init_resolved, set_self, modify.
  erewrite bind_inr by reflexivity.
  erewrite bind_inr by reflexivity.
  erewrite bind_inr by (apply self_connection_alias_run; reflexivity).
  erewrite bind_inr by (apply config_of_run; exact Hheap).
  erewrite bind_inr by (unfold external; rewrite Hacc; reflexivity).
  erewrite bind_inr.
  2:{ erewrite create_or_reuse_collection_run; try reflexivity; try eassumption.
      unfold requested. rewrite Hacc. reflexivity. }
  erewrite bind_inr by reflexivity.
  erewrite bind_inr.
  2:{ erewrite create_or_reuse_offset2id_collection_run;
        try reflexivity; try eassumption.
      unfold requested. rewrite Hacc. reflexivity. }
  erewrite bind_inr by reflexivity.
  unfold external. rewrite Hacc. simpl.
  rewrite Hname. unfold with_log. simpl.
  now rewrite <- !app_assoc.
Qed.

(** ** Successful runs, read backwards *)

Lemma bind_inv {A B} (m : M A) (f : A -> M B) st b st' :
  (m ≫= f) st = (inr b, st') ->
  exists a st1, m st = (inr a, st1) /\ f a st1 = (inr b, st').
Proof.
  intros E.
  destruct (bind_cases m f st) as [(a & st1 & Hm & Hb) | (e & st1 & Hm & Hb)];
    rewrite Hb in E; [eauto | discriminate].
Qed.

Lemma config_of_inv attr l c st st' :
  config_of attr l st = (inr c, st') ->
  heap st !! l = Some (OConfig c) /\ st' = st.
Proof.
  unfold config_of, deref, mbind, M_bind.
  destruct (heap st !! l) as [[d | c0] |]; try discriminate.
  now intros [= -> ->].
Qed.

Lemma self_config_inv attr c st st' :
  self_config attr st = (inr c, st') ->
  exists l, _config (self st) = Some l /\ heap st !! l = Some (OConfig c) /\ st' = st.
Proof.
  unfold self_config, get_state, mbind, M_bind.
  destruct (_config (self st)) as [l |]; [| discriminate].
  intros E. apply config_of_inv in E as [? ?]. eauto.
Qed.

Lemma self_connection_alias_inv alias st st' :
  self_connection_alias st = (inr alias, st') ->
  _connection_alias (self st) = Some alias /\ st' = st.
Proof.
  unfold self_connection_alias, get_state, mbind, M_bind.
  destruct (_connection_alias (self st)); [| discriminate].
  now intros [= -> ->].
Qed.

Lemma external_inv W c st st' :
  external c W st = (inr tt, st') ->
  accepts W (log st) c = true /\ st' = with_log (log st ++ [c]) st.
Proof.
  unfold external. destruct (accepts W (log st) c); [| discriminate].
  now intros [= <-].
Qed.

Lemma Collection_new_inv W name schema alias kwargs c st st' :
  Collection_new W name schema alias kwargs st = (inr c, st') ->
  repeated_keywords kwargs = [] /\
  c = mkCollection name schema alias kwargs /\
  st' = with_log (log st ++ [CreateCollection c]) st.
Proof.
  unfold Collection_new.
  destruct (repeated_keywords kwargs); [| discriminate].
  intros E. apply bind_inv in E as ([] & st1 & E1 & E2).
  apply external_inv in E1 as [_ ->]. now injection E2 as <- <-.
Qed.

Lemma create_or_reuse_collection_inv W c st st' :
  _create_or_reuse_collection W st = (inr c, st') ->
  exists l cfg alias,
    _config (self st) = Some l /\
    heap st !! l = Some (OConfig cfg) /\
    _connection_alias (self st) = Some alias /\
    repeated_keywords (collection_config cfg) = [] /\
    c = mkCollection (collection_name cfg)
          (mkCollectionSchema
             [mkFieldSchema "document_id" VARCHAR (Some 1024) None true;
              mkFieldSchema "embedding" FLOAT_VECTOR None (Some (n_dim cfg)) false;
              mkFieldSchema "serialized" VARCHAR (Some 65535) None false]
             "DocumentArray collection")
          alias (collection_config cfg) /\
    st' = with_log (log st ++ [CreateCollection c]) st.
Proof.
  unfold _create_or_reuse_collection. cbv zeta. intros E0.
  apply bind_inv in E0 as (cfg & st1 & H1 & E0).
  apply self_config_inv in H1 as (l & Hself & Hheap & ->).
  apply bind_inv in E0 as (cfg2 & st1 & H1 & E0).
  apply self_config_inv in H1 as (l2 & Hself2 & Hheap2 & ->).
  apply bind_inv in E0 as (alias & st1 & H1 & E0).
  apply self_connection_alias_inv in H1 as (Halias & ->).
  apply bind_inv in E0 as (cfg3 & st1 & H1 & E0).
  apply self_config_inv in H1 as (l3 & Hself3 & Hheap3 & ->).
  assert (l2 = l) as -> by congruence. assert (l3 = l) as -> by congruence.
  assert (cfg2 = cfg) as -> by congruence. assert (cfg3 = cfg) as -> by congruence.
  apply Collection_new_inv in E0 as (Hkw & -> & ->).
  exists l, cfg, alias. now repeat split.
Qed.

Lemma create_or_reuse_offset2id_collection_inv W c st st' :
  _create_or_reuse_offset2id_collection W st = (inr c, st') ->
  exists l cfg alias name,
    _config (self st) = Some l /\
    heap st !! l = Some (OConfig cfg) /\
    _connection_alias (self st) = Some alias /\
    collection_name cfg = Some name /\
    c = mkCollection (Some (name +:+ "_offset2id"))
          (mkCollectionSchema
             [mkFieldSchema "offset" VARCHAR (Some 1024) None true;
              mkFieldSchema "document_id" VARCHAR (Some 1024) None false;
              mkFieldSchema "dummy_vector" FLOAT_VECTOR None (Some 1) false]
             "offset2id for DocumentArray")
          alias ∅ /\
    st' = with_log (log st ++ [CreateCollection c]) st.
Proof.
  unfold _create_or_reuse_offset2id_collection. cbv zeta. intros E0.
  apply bind_inv in E0 as (cfg & st1 & H1 & E0).
  apply self_config_inv in H1 as (l & Hself & Hheap & ->).
  destruct (collection_name cfg) as [name |] eqn:Hname; [| discriminate].
  rewrite bind_ret in E0.
  apply bind_inv in E0 as (alias & st1 & H1 & E0).
  apply self_connection_alias_inv in H1 as (Halias & ->).
  apply Collection_new_inv in E0 as (_ & -> & ->).
  exists l, cfg, alias, name. now repeat split.
Qed.

(** A run of lines 58-68 that returns has made its four calls, in
    order, and has bound the adapter to the configuration and to the two
    collections it created. *)
Lemma init_resolved_success (W : World) (config : loc) (kwargs : gmap string pyval)
    (st st' : state) :
  init_resolved W config kwargs st = (inr tt, st') ->
  exists cfg name primary offset2id,
    heap st !! config = Some (OConfig cfg) /\
    collection_name cfg = Some name /\
    repeated_keywords (collection_config cfg) = [] /\
    primary
    = mkCollection (Some name)
        (mkCollectionSchema
           [mkFieldSchema "document_id" VARCHAR (Some 1024) None true;
            mkFieldSchema "embedding" FLOAT_VECTOR None (Some (n_dim cfg)) false;
            mkFieldSchema "serialized" VARCHAR (Some 65535) None false]
           "DocumentArray collection")
        "docarray_default_connection" (collection_config cfg) /\
    offset2id
    = mkCollection (Some (name +:+ "_offset2id"))
        (mkCollectionSchema
           [mkFieldSchema "offset" VARCHAR (Some 1024) None true;
            mkFieldSchema "document_id" VARCHAR (Some 1024) None false;
            mkFieldSchema "dummy_vector" FLOAT_VECTOR None (Some 1) false]
           "offset2id for DocumentArray")
        "docarray_default_connection" ∅ /\
    st' = mkState (heap st)
            (mkSelf (Some config) (Some "docarray_default_connection")
               (Some primary) (Some offset2id))
            (log st ++ [Connect "docarray_default_connection" (host cfg) (port cfg);
                        CreateCollection primary; CreateCollection offset2id;
                        SuperInitStorage config kwargs])
            (draws st).
Proof.
  unfold init_resolved, set_self, modify. intros E.
  erewrite bind_inr in E by reflexivity.
  erewrite bind_inr in E by reflexivity.
  erewrite bind_inr in E by (apply self_connection_alias_run; reflexivity).
  apply bind_inv in E as (cfg & st1 & H1 & E).
  apply config_of_inv in H1 as (Hheap & ->). simpl in Hheap.
  apply bind_inv in E as ([] & st1 & H1 & E).
  apply external_inv in H1 as (_ & ->).
  apply bind_inv in E as (primary & st1 & H1 & E).
  apply create_or_reuse_collection_inv in H1
    as (l1 & cfg1 & alias1 & Hself1 & Hheap1 & Halias1 & Hkw & Hprimary & ->).
  simpl in Hself1, Hheap1, Halias1.
  injection Hself1 as <-. injection Halias1 as <-.
  rewrite Hheap in Hheap1. injection Hheap1 as <-.
  erewrite bind_inr in E by reflexivity.
  apply bind_inv in E as (offset2id & st1 & H1 & E).
  apply create_or_reuse_offset2id_collection_inv in H1
    as (l2 & cfg2 & alias2 & name & Hself2 & Hheap2 & Halias2 & Hname & Hoffset & ->).
  simpl in Hself2, Hheap2, Halias2.
  injection Hself2 as <-. injection Halias2 as <-.
  rewrite Hheap in Hheap2. injection Hheap2 as <-.
  erewrite bind_inr in E by reflexivity.
  apply external_inv in E as (_ & ->).
  rewrite Hname in Hprimary.
  exists cfg, name, primary, offset2id.
  repeat split; try assumption.
  unfold with_log. simpl. now rewrite <- !app_assoc.
Qed.

(** ** Initialisation as a whole (lines 43-68) *)

Section InitStorage.
Variables (W : World) (kwargs : gmap string pyval).

Lemma init_storage_resolved config st l st1 :
  resolve_config W config st = (inr l, st1) ->
  _init_storage W config kwargs st = init_resolved W l kwargs st1.
Proof. intros E. unfold _init_storage. now rewrite (bind_inr _ _ _ _ _ E). Qed.

Lemma init_storage_unresolved config st e st1 :
  resolve_config W config st = (inl e, st1) ->
  _init_storage W config kwargs st = (inl e, st1).
Proof. intros E. unfold _init_storage. now rewrite (bind_inl _ _ _ _ _ E). Qed.

(** A configuration that is given, not empty and valid ends up, with
    its name resolved, in a new object that the adapter is bound to. *)
Lemma init_storage_binds_resolved l o c st :
  heap st !! l = Some o ->
  truthy o = true ->
  as_config o = inr c ->
  let st' := snd (_init_storage W (Some l) kwargs st) in
  exists l',
    _config (self st') = Some l' /\
    heap st !! l' = None /\
    heap st' !! l' = Some (OConfig (with_resolved_name W (draws st) c)) /\
    draws st' = match collection_name c with
                | Some _ => draws st
                | None => S (draws st)
                end.
Proof.
  intros Hl Htrue Hc st'.
  destruct (resolve_config_resolves W l o c st Hl Htrue Hc)
    as (l' & st1 & Hrun & Hnew & Hobj & _ & _ & _ & Hdraws).
  exists l'. unfold st'. rewrite (init_storage_resolved _ _ _ _ Hrun).
  destruct (init_resolved_same_memory W l' kwargs st1) as [Hheap Hd].
  rewrite Hheap, Hd. repeat split; try assumption.
  apply init_resolved_binds.
Qed.
End InitStorage.

Lemma truthy_iff o : truthy o = true <-> o <> ODict ∅.
Proof.
  destruct o as [d | c]; simpl; [| split; [discriminate | reflexivity]].
  rewrite negb_true_iff, Nat.eqb_neq, map_size_non_empty_iff. split.
  - intros Hd [= ->]. now apply Hd.
  - intros Hd ->. now apply Hd.
Qed.

Lemma dataclass_from_dict_empty :
  dataclass_from_dict ∅ = inl (TypeError "missing required argument n_dim").
Proof. reflexivity. Qed.

Lemma valid_is_truthy o c : as_config o = inr c -> truthy o = true.
Proof.
  intros Hc. apply truthy_iff. intros ->. simpl in Hc.
  rewrite dataclass_from_dict_empty in Hc. discriminate.
Qed.

(** Deserialization keeps a collection name that the mapping gives. *)
Lemma dataclass_from_dict_name d c :
  dataclass_from_dict d = inr c ->
  collection_name c = match d !! "collection_name" with
                      | Some (PStr s) => Some s
                      | _ => None
                      end.
Proof.
  unfold dataclass_from_dict. destruct (unknown_keys d); [| discriminate].
  destruct (read_required_int d "n_dim") as [| n]; [discriminate |]. simpl.
  unfold read_opt_str at 1.
  destruct (d !! "collection_name") as [[| | | s |] |]; simpl; try discriminate;
    (destruct (read_str d "host" "localhost"); [discriminate |]; simpl;
     destruct (read_port d "port"); [discriminate |]; simpl;
     destruct (read_str d "distance" "IP"); [discriminate |]; simpl;
     destruct (read_str d "index_type" "HNSW"); [discriminate |]; simpl;
     destruct (read_opt_dict d "index_config"); [discriminate |]; simpl;
     destruct (read_dict d "collection_config"); [discriminate |]; simpl;
     destruct (read_dict d "serialize_config"); [discriminate |]; simpl;
     now intros [= <-]).
Qed.

Lemma dataclass_from_dict_n_dim_only n :
  dataclass_from_dict {[ "n_dim" := PInt n ]}
  = inr (mkMilvusConfig n None "localhost" (Some (PortInt 19530)) "IP" "HNSW"
           None ∅ ∅).
Proof. reflexivity. Qed.

Lemma as_config_name o c :
  as_config o = inr c -> collection_name c = input_collection_name o.
Proof.
  destruct o as [d | c0]; simpl.
  - apply dataclass_from_dict_name.
  - now intros [= ->].
Qed.

(** An initialisation that returns has resolved its configuration
    and then made its four calls; the heap is the one resolution left. *)
Lemma init_storage_success (W : World) (config : option loc)
    (kwargs : gmap string pyval) (st st' : state) :
  _init_storage W config kwargs st = (inr tt, st') ->
  exists l cfg name primary offset2id,
    _config (self st') = Some l /\
    heap st' !! l = Some (OConfig cfg) /\
    collection_name cfg = Some name /\
    repeated_keywords (collection_config cfg) = [] /\
    primary
    = mkCollection (Some name)
        (mkCollectionSchema
           [mkFieldSchema "document_id" VARCHAR (Some 1024) None true;
            mkFieldSchema "embedding" FLOAT_VECTOR None (Some (n_dim cfg)) false;
            mkFieldSchema "serialized" VARCHAR (Some 65535) None false]
           "DocumentArray collection")
        "docarray_default_connection" (collection_config cfg) /\
    offset2id
    = mkCollection (Some (name +:+ "_offset2id"))
        (mkCollectionSchema
           [mkFieldSchema "offset" VARCHAR (Some 1024) None true;
            mkFieldSchema "document_id" VARCHAR (Some 1024) None false;
            mkFieldSchema "dummy_vector" FLOAT_VECTOR None (Some 1) false]
           "offset2id for DocumentArray")
        "docarray_default_connection" ∅ /\
    _collection (self st') = Some primary /\
    _offset2id_collection (self st') = Some offset2id /\
    log st'
    = log st ++ [Connect "docarray_default_connection" (host cfg) (port cfg);
                 CreateCollection primary; CreateCollection offset2id;
                 SuperInitStorage l kwargs].
Proof.
  intros E.
  pose proof (resolve_config_frame W config st) as (_ & _ & Hlog).
  destruct (resolve_config W config st) as [[e | l] st1] eqn:Hrun.
  - rewrite (init_storage_unresolved W kwargs _ _ _ _ Hrun) in E. discriminate.
  - rewrite (init_storage_resolved W kwargs _ _ _ _ Hrun) in E.
    apply init_resolved_success in E
      as (cfg & name & primary & offset2id & Hheap & Hname & Hkw & Hp & Ho & ->).
    simpl in Hlog. exists l, cfg, name, primary, offset2id. simpl.
    rewrite Hlog. now repeat split.
Qed.

(** C1: an adapter bound to a resolved configuration of dimension 128
    and collection name [name] requests, when it provisions, a primary
    collection called [name] and a second collection called [name]
    followed by ["_offset2id"], each with exactly the three fields the
    specification lists (the code puts [offset] before [document_id]), and
    gets each collection back when the store accepts the request.  And
    every adapter whose initialisation returned with a configuration of
    dimension 128 holds two such collections, the two it created. *)
Theorem provisioning_creates_two_collections (W : World) :
  (forall (st : state) (l : loc) (cfg : MilvusConfig) (alias name : string),
      _config (self st) = Some l ->
      heap st !! l = Some (OConfig cfg) ->
      _connection_alias (self st) = Some alias ->
      n_dim cfg = 128 ->
      collection_name cfg = Some name ->
      repeated_keywords (collection_config cfg) = [] ->
      exists primary offset2id : Collection,
        _create_or_reuse_collection W st = requested W primary st /\
        _create_or_reuse_offset2id_collection W st = requested W offset2id st /\
        col_name primary = Some name /\
        cs_fields (col_schema primary) = primary_fields 128 /\
        length (cs_fields (col_schema primary)) = 3%nat /\
        col_name offset2id = Some (name +:+ "_offset2id") /\
        cs_fields (col_schema offset2id) ≡ₚ offset2id_fields /\
        length (cs_fields (col_schema offset2id)) = 3%nat) /\
  (forall (config : option loc) (kwargs : gmap string pyval) (st st' : state)
          (l : loc) (cfg : MilvusConfig),
      _init_storage W config kwargs st = (inr tt, st') ->
      _config (self st') = Some l ->
      heap st' !! l = Some (OConfig cfg) ->
      n_dim cfg = 128 ->
      exists (name : string) (primary offset2id : Collection),
        collection_name cfg = Some name /\
        _collection (self st') = Some primary /\
        _offset2id_collection (self st') = Some offset2id /\
        created_collections (log st')
        = created_collections (log st) ++ [primary; offset2id] /\
        col_name primary = Some name /\
        cs_fields (col_schema primary) = primary_fields 128 /\
        length (cs_fields (col_schema primary)) = 3%nat /\
        col_name offset2id = Some (name +:+ "_offset2id") /\
        cs_fields (col_schema offset2id) ≡ₚ offset2id_fields /\
        length (cs_fields (col_schema offset2id)) = 3%nat).
Proof.
  assert (Hperm :
    [mkFieldSchema "offset" VARCHAR (Some 1024) None true;
     mkFieldSchema "document_id" VARCHAR (Some 1024) None false;
     mkFieldSchema "dummy_vector" FLOAT_VECTOR None (Some 1) false]
    ≡ₚ offset2id_fields) by apply Permutation_swap.
  split.
  - intros st l cfg alias name Hself Hheap Halias Hdim Hname Hkw.
    eexists _, _. split; [| split].
    + now apply (create_or_reuse_collection_run W st l cfg alias).
    + now apply (create_or_reuse_offset2id_collection_run W st l cfg alias name).
    + simpl. rewrite Hdim, Hname. now repeat split.
  - intros config kwargs st st' l cfg Hinit Hself Hheap Hdim.
    apply init_storage_success in Hinit
      as (l0 & cfg0 & name & primary & offset2id & Hself0 & Hheap0 & Hname & _
          & Hp & Ho & Hcol & Hoff & Hlog).
    rewrite Hself in Hself0. injection Hself0 as <-.
    rewrite Hheap in Hheap0. injection Hheap0 as <-.
    exists name, primary, offset2id.
    split; [exact Hname |]. split; [exact Hcol |]. split; [exact Hoff |].
    split.
    { rewrite Hlog. unfold created_collections. now rewrite omap_app. }
    rewrite Hp, Ho. simpl. rewrite Hdim. now repeat split.
Qed.

(** C9: the request for the primary collection carries the configured
    collection options as they are, and the request for the offset2id
    collection carries no option at all, whatever is configured.  In every
    initialisation that returns, the collections created are these two,
    in this order: the first with the configured options, the second with
    none. *)
Theorem collection_options_only_for_primary (W : World) :
  (forall (st : state) (l : loc) (cfg : MilvusConfig) (alias name : string),
      _config (self st) = Some l ->
      heap st !! l = Some (OConfig cfg) ->
      _connection_alias (self st) = Some alias ->
      collection_name cfg = Some name ->
      (repeated_keywords (collection_config cfg) = [] ->
       exists primary,
         _create_or_reuse_collection W st = requested W primary st /\
         col_name primary = Some name /\
         col_kwargs primary = collection_config cfg) /\
      (exists offset2id,
          _create_or_reuse_offset2id_collection W st = requested W offset2id st /\
          col_name offset2id = Some (name +:+ "_offset2id") /\
          col_kwargs offset2id = ∅)) /\
  (forall (config : option loc) (kwargs : gmap string pyval) (st st' : state),
      _init_storage W config kwargs st = (inr tt, st') ->
      exists (l : loc) (cfg : MilvusConfig),
        _config (self st') = Some l /\
        heap st' !! l = Some (OConfig cfg) /\
        col_kwargs <$> created_collections (log st')
        = (col_kwargs <$> created_collections (log st))
            ++ [collection_config cfg; ∅]).
Proof.
  split.
  - intros st l cfg alias name Hself Hheap Halias Hname. split.
    + intros Hkw. eexists. split;
        [now apply (create_or_reuse_collection_run W st l cfg alias) |].
      simpl. now rewrite Hname.
    + eexists. split;
        [now apply (create_or_reuse_offset2id_collection_run W st l cfg alias name) |].
      now split.
  - intros config kwargs st st' Hinit.
    apply init_storage_success in Hinit
      as (l & cfg & name & primary & offset2id & Hself & Hheap & _ & _
          & Hp & Ho & _ & _ & Hlog).
    exists l, cfg. split; [exact Hself |]. split; [exact Hheap |].
    rewrite Hlog. unfold created_collections. rewrite omap_app, fmap_app.
    simpl. now rewrite Hp, Ho.
Qed.

(** C4: for every mapping that gives the dimension and nothing else,
    initialisation binds the adapter to a record with host "localhost",
    port 19530, distance "IP", index type "HNSW" and the collection name
    "docarray__" followed by a token of thirty-two hexadecimal digits made
    from the random bytes drawn at this call. *)
Theorem init_storage_n_dim_only
    (W : World) (kwargs : gmap string pyval) (st : state) (l : loc) (n : Z) :
  heap st !! l = Some (ODict {[ "n_dim" := PInt n ]}) ->
  let st' := snd (_init_storage W (Some l) kwargs st) in
  let token := Uuid.format_032x (Uuid.uuid4_int (Uuid.urandom16 W (draws st))) in
  exists l',
    _config (self st') = Some l' /\
    heap st' !! l'
    = Some (OConfig {| n_dim := n;
                       collection_name := Some ("docarray__" +:+ token);
                       host := "localhost";
                       port := Some (PortInt 19530);
                       distance := "IP";
                       index_type := "HNSW";
                       index_config := None;
                       collection_config := ∅;
                       serialize_config := ∅ |}) /\
    String.length token = 32%nat /\
    Uuid.is_hex_string token = true /\
    draws st' = S (draws st).
Proof.
  intros Hl st' token.
  destruct (init_storage_binds_resolved W kwargs l _ _ st Hl eq_refl
              (dataclass_from_dict_n_dim_only n))
    as (l' & Hself & _ & Hobj & Hdraws).
  exists l'. split; [exact Hself |]. split; [exact Hobj |].
  destruct (UuidFacts.format_032x_uuid4 W (draws st)) as [Hlen Hhex].
  now repeat split.
Qed.

(** C7: for every configuration object that sets a collection name and
    stands for a valid record, initialisation binds the adapter to a copy
    of exactly that record, collection name included, and draws no random
    bytes: no name is generated. *)
Theorem init_storage_keeps_collection_name
    (W : World) (kwargs : gmap string pyval) (st : state) (l : loc)
    (o : object) (c : MilvusConfig) (name : string) :
  heap st !! l = Some o ->
  input_collection_name o = Some name ->
  as_config o = inr c ->
  let st' := snd (_init_storage W (Some l) kwargs st) in
  exists l',
    _config (self st') = Some l' /\
    heap st' !! l' = Some (OConfig c) /\
    collection_name c = Some name /\
    draws st' = draws st.
Proof.
  intros Hl Hname Hc st'.
  assert (Hcname : collection_name c = Some name).
  { now rewrite (as_config_name o c Hc). }
  destruct (init_storage_binds_resolved W kwargs l o c st Hl
              (valid_is_truthy o c Hc) Hc)
    as (l' & Hself & _ & Hobj & Hdraws).
  unfold with_resolved_name in Hobj. rewrite Hcname in Hobj, Hdraws.
  exists l'. now repeat split.
Qed.

(** C6: initialisation without a configuration, or with an empty
    mapping, raises the refusal of an empty configuration at once: nothing
    has been logged, so neither a connection nor a collection was asked
    for, and the adapter is as it was.  With any other configuration this
    exception is not raised. *)
Theorem init_storage_empty_config
    (W : World) (kwargs : gmap string pyval) (st : state) :
  _init_storage W None kwargs st = (inl (ValueError empty_config_message), st) /\
  (forall l, heap st !! l = Some (ODict ∅) ->
     exists st',
       _init_storage W (Some l) kwargs st
       = (inl (ValueError empty_config_message), st') /\
       log st' = log st /\ self st' = self st /\ draws st' = draws st /\
       objects_kept st st') /\
  (forall l o, heap st !! l = Some o -> o <> ODict ∅ ->
     fst (_init_storage W (Some l) kwargs st)
     <> inl (ValueError empty_config_message)).
Proof.
  split; [| split].
  - apply init_storage_unresolved. apply resolve_config_none.
  - intros l Hl. eexists. split.
    + apply init_storage_unresolved.
      now apply (resolve_config_refuses W l (ODict ∅) st Hl).
    + repeat split. intros l0 o0 E. now apply insert_fresh_keeps.
  - intros l o Hl Hne. apply truthy_iff in Hne.
    destruct (as_config o) as [e | c] eqn:Hc.
    + rewrite (init_storage_unresolved W kwargs _ _ _ _
                 (resolve_config_invalid W l o e st Hl Hne Hc)).
      simpl. intros [= ->].
      destruct o as [d | c]; [| discriminate].
      now apply (dataclass_from_dict_error d _ Hc).
    + destruct (resolve_config_resolves W l o c st Hl Hne Hc)
        as (l' & st1 & Hrun & _).
      rewrite (init_storage_resolved W kwargs _ _ _ _ Hrun).
      intros E. now apply (init_resolved_raises W l' kwargs st1 _ E).
Qed.

(** C8: initialisation works on a copy.  Every object that exists when
    it is called, the caller's configuration among them, is unchanged
    when it ends, whatever the outcome; and the configuration that
    resolution returns is an object that did not exist before, so it is
    not the caller's. *)
Theorem init_storage_leaves_input_unchanged
    (W : World) (kwargs : gmap string pyval) (st : state) (l : loc) (o : object) :
  heap st !! l = Some o ->
  let st' := snd (_init_storage W (Some l) kwargs st) in
  heap st' !! l = Some o /\
  objects_kept st st' /\
  (forall l' st1,
      resolve_config W (Some l) st = (inr l', st1) ->
      l' <> l /\ heap st !! l' = None /\ _config (self st') = Some l').
Proof.
  intros Hl st'.
  assert (Hkept : objects_kept st st').
  { unfold st'.
    pose proof (resolve_config_frame W (Some l) st) as (Hk & _ & _).
    destruct (resolve_config W (Some l) st) as [[e | l'] st1] eqn:Hrun.
    - now rewrite (init_storage_unresolved W kwargs _ _ _ _ Hrun).
    - rewrite (init_storage_resolved W kwargs _ _ _ _ Hrun).
      destruct (init_resolved_same_memory W l' kwargs st1) as [Hheap _].
      intros l0 o0 E. rewrite Hheap. now apply Hk. }
  split; [now apply Hkept |]. split; [exact Hkept |].
  intros l' st1 Hrun.
  assert (Hnew : heap st !! l' = None).
  { destruct (truthy o) eqn:Htruthy.
    - destruct (as_config o) as [e | c] eqn:Hc.
      + rewrite (resolve_config_invalid W l o e st Hl Htruthy Hc) in Hrun.
        discriminate.
      + destruct (resolve_config_resolves W l o c st Hl Htruthy Hc)
          as (l2 & st2 & Hrun2 & Hnone & _).
        rewrite Hrun2 in Hrun. now injection Hrun as <- <-.
    - rewrite (resolve_config_refuses W l o st Hl Htruthy) in Hrun. discriminate. }
  split; [| split; [exact Hnew |]].
  - intros ->. rewrite Hl in Hnew. discriminate.
  - unfold st'. rewrite (init_storage_resolved W kwargs _ _ _ _ Hrun).
    apply init_resolved_binds.
Qed.

(** ** The statements on sample inputs *)




Lemma ensure_unique_config_on_join_witness :
  exists st' d,
    _ensure_unique_config 1%positive 2%positive 3%positive "S" Scenario.join
    = (inr 3%positive, st') /\
    heap st' !! 3%positive = Some (ODict d) /\
    d !! "collection_name" = Some (PStr "R_subindex_S") /\
    d !! "distance" = Some (PStr "L2").
Proof.
  destruct (ensure_unique_config_on_join Scenario.join 1%positive 2%positive
              3%positive "S" Scenario.root_mapping Scenario.subindex_mapping
              eq_refl eq_refl eq_refl)
    as [Hrename _].
  destruct (Hrename "R" eq_refl eq_refl) as (st' & d & Hrun & Hobj & Hname & Hrest).
  exists st', d. split; [exact Hrun |]. split; [exact Hobj |].
  split; [exact Hname |].
  rewrite Hrest by discriminate. reflexivity.
Defined.

Lemma sample_init_storage_returns :
  fst (_init_storage Sample.world (Some 1%positive) ∅ Sample.n_dim_only) = inr tt.
Proof. vm_compute. reflexivity. Qed.

Lemma sample_init_storage_binds :
  let st' := snd (_init_storage Sample.world (Some 1%positive) ∅ Sample.n_dim_only) in
  _config (self st') = Some 3%positive /\
  heap st' !! 3%positive
  = Some (OConfig (mkMilvusConfig 128
                     (Some "docarray__0123456789ab4def8123456789abcdef")
                     "localhost" (Some (PortInt 19530)) "IP" "HNSW" None ∅ ∅)).
Proof. split; vm_compute; reflexivity. Qed.

Lemma provisioning_creates_two_collections_witness :
  (exists primary offset2id : Collection,
      _create_or_reuse_collection Sample.world Sample.bound
      = (inr primary, with_log [CreateCollection primary] Sample.bound) /\
      _create_or_reuse_offset2id_collection Sample.world Sample.bound
      = (inr offset2id, with_log [CreateCollection offset2id] Sample.bound) /\
      length (cs_fields (col_schema primary)) = 3%nat /\
      length (cs_fields (col_schema offset2id)) = 3%nat) /\
  (exists primary offset2id : Collection,
      created_collections
        (log (snd (_init_storage Sample.world (Some 1%positive) ∅ Sample.n_dim_only)))
      = [primary; offset2id] /\
      cs_fields (col_schema primary) = primary_fields 128).
Proof.
  destruct (provisioning_creates_two_collections Sample.world) as [Hcalls Hinit].
  split.
  - destruct (Hcalls Sample.bound 1%positive Sample.config
                "docarray_default_connection" "docs"
                eq_refl eq_refl eq_refl eq_refl eq_refl eq_refl)
      as (primary & offset2id & Hp & Ho & _ & _ & Hlp & _ & _ & Hlo).
    exists primary, offset2id. now repeat split.
  - destruct sample_init_storage_binds as [Hself Hobj].
    destruct (Hinit (Some 1%positive) ∅ Sample.n_dim_only
                (snd (_init_storage Sample.world (Some 1%positive) ∅ Sample.n_dim_only))
                3%positive _
                (surjective_pairing_with_fst _ _ sample_init_storage_returns)
                Hself Hobj eq_refl)
      as (name & primary & offset2id & _ & _ & _ & Hcreated & _ & Hfields & _).
    exists primary, offset2id. split; [exact Hcreated | exact Hfields].
Defined.

Lemma collection_options_only_for_primary_witness :
  (exists primary,
      _create_or_reuse_collection Sample.world Sample.bound
      = requested Sample.world primary Sample.bound /\
      col_kwargs primary = {[ "consistency_level" := PStr "Strong" ]}) /\
  (exists offset2id,
      _create_or_reuse_offset2id_collection Sample.world Sample.bound
      = requested Sample.world offset2id Sample.bound /\
      col_kwargs offset2id = ∅).
Proof.
  destruct (collection_options_only_for_primary Sample.world) as [Hcalls _].
  destruct (Hcalls Sample.bound 1%positive Sample.config
              "docarray_default_connection" "docs" eq_refl eq_refl eq_refl eq_refl)
    as [Hprimary (offset2id & Hrun & _ & Hkw)].
  destruct (Hprimary eq_refl) as (primary & Hrunp & _ & Hkwp).
  split; [exists primary | exists offset2id]; now split.
Defined.

Lemma init_storage_n_dim_only_witness :
  exists l' name,
    _config (self (snd (_init_storage Sample.world (Some 1%positive) ∅ Sample.n_dim_only)))
    = Some l' /\
    heap (snd (_init_storage Sample.world (Some 1%positive) ∅ Sample.n_dim_only)) !! l'
    = Some (OConfig (mkMilvusConfig 128 (Some ("docarray__" +:+ name)) "localhost"
                       (Some (PortInt 19530)) "IP" "HNSW" None ∅ ∅)) /\
    String.length name = 32%nat.
Proof.
  destruct (init_storage_n_dim_only Sample.world ∅ Sample.n_dim_only 1%positive 128
              eq_refl)
    as (l' & Hself & Hobj & Hlen & _).
  eexists l', _. split; [exact Hself |]. split; [exact Hobj | exact Hlen].
Defined.

Lemma init_storage_keeps_collection_name_witness :
  exists l' c,
    _config (self (snd (_init_storage Sample.world (Some 1%positive) ∅ Sample.named)))
    = Some l' /\
    heap (snd (_init_storage Sample.world (Some 1%positive) ∅ Sample.named)) !! l'
    = Some (OConfig c) /\
    collection_name c = Some "docs".
Proof.
  destruct (init_storage_keeps_collection_name Sample.world ∅ Sample.named
              1%positive
              (ODict {[ "n_dim" := PInt 128; "collection_name" := PStr "docs" ]})
              (mkMilvusConfig 128 (Some "docs") "localhost" (Some (PortInt 19530))
                 "IP" "HNSW" None ∅ ∅)
              "docs" eq_refl eq_refl eq_refl)
    as (l' & Hself & Hobj & Hname & _).
  eexists l', _. split; [exact Hself |]. split; [exact Hobj | exact Hname].
Defined.

Lemma init_storage_empty_config_witness :
  fst (_init_storage Sample.world (Some 1%positive) ∅ Sample.n_dim_only)
  <> inl (ValueError empty_config_message).
Proof.
  destruct (init_storage_empty_config Sample.world ∅ Sample.n_dim_only)
    as (_ & _ & Hother).
  apply (Hother 1%positive (ODict {[ "n_dim" := PInt 128 ]}) eq_refl).
  discriminate.
Defined.

Lemma init_storage_leaves_input_unchanged_witness :
  heap (snd (_init_storage Sample.world (Some 1%positive) ∅ Sample.n_dim_only))
    !! 1%positive
  = Some (ODict {[ "n_dim" := PInt 128 ]}).
Proof.
  destruct (init_storage_leaves_input_unchanged Sample.world ∅ Sample.n_dim_only
              1%positive (ODict {[ "n_dim" := PInt 128 ]}) eq_refl)
    as (Hsame & _).
  exact Hsame.
Defined.


(** * Further properties of the code *)

(** ** The subindex namer: errors, frame, composition *)

Global Instance changed_only_at_preorder l : PreOrder (changed_only_at l).
Proof.
  split.
  - intros st. now repeat split.
  - intros a b c (H1 & H2 & H3 & H4) (H5 & H6 & H7 & H8).
    repeat split; try congruence.
    intros l0 Hne. now rewrite H5, H1.
Qed.

Lemma getitem_missing l key d st :
  heap st !! l = Some (ODict d) -> d !! key = None ->
  getitem l key st = (inl (KeyError key), st).
Proof.
  intros E Hv. unfold getitem.
  rewrite (bind_inr _ _ _ _ _ (dict_of_run _ _ _ E)). now rewrite Hv.
Qed.

(** X1: when the subindex mapping has no ["collection_name"] key, a
    joined mapping without that key makes the namer raise [KeyError], and
    a joined mapping whose collection name is not a string makes it raise
    [TypeError]; in both cases nothing has been changed. *)
Theorem ensure_unique_config_errors
    (st : state) (config_root config_subindex config_joined : loc)
    (subindex_name : string) (sub joined : gmap string pyval) :
  heap st !! config_subindex = Some (ODict sub) ->
  heap st !! config_joined = Some (ODict joined) ->
  sub !! "collection_name" = None ->
  (joined !! "collection_name" = None ->
   _ensure_unique_config config_root config_subindex config_joined subindex_name st
   = (inl (KeyError "collection_name"), st)) /\
  (forall v, joined !! "collection_name" = Some v ->
             (forall name, v <> PStr name) ->
             exists msg,
               _ensure_unique_config config_root config_subindex config_joined
                 subindex_name st
               = (inl (TypeError msg), st)).
Proof.
  intros Hsub Hjoined Hno. split.
  - intros Hmissing. unfold _ensure_unique_config.
    rewrite (bind_inr _ _ _ _ _ (contains_run _ _ _ _ Hsub)).
    rewrite Hno, bool_decide_eq_false_2 by (intros [? [=]]). simpl.
    erewrite bind_inl; [reflexivity |].
    now rewrite (bind_inl _ _ _ _ _ (getitem_missing _ _ _ _ Hjoined Hmissing)).
  - intros v Hv Hnot. eexists. unfold _ensure_unique_config.
    rewrite (bind_inr _ _ _ _ _ (contains_run _ _ _ _ Hsub)).
    rewrite Hno, bool_decide_eq_false_2 by (intros [? [=]]). simpl.
    erewrite bind_inl; [reflexivity |].
    rewrite (bind_inr _ _ _ _ _ (getitem_run _ _ _ _ _ Hjoined Hv)).
    destruct v as [| b | n | name | d]; try reflexivity.
    now destruct (Hnot name).
Qed.

Lemma ensure_unique_config_errors_witness :
  _ensure_unique_config 1%positive 2%positive 2%positive "S" Sample.subindex
  = (inl (KeyError "collection_name"), Sample.subindex).
Proof.
  destruct (ensure_unique_config_errors Sample.subindex 1%positive 2%positive
              2%positive "S" ∅ ∅ eq_refl eq_refl eq_refl)
    as [Hmissing _].
  apply Hmissing. reflexivity.
Defined.

(** X2: whatever its arguments and its outcome, the namer changes no
    object but the joined mapping, and touches neither the adapter, nor
    the log, nor the entropy; when it returns, it returns the very
    reference it was given for the joined mapping. *)
Theorem ensure_unique_config_frame
    (st : state) (config_root config_subindex config_joined : loc)
    (subindex_name : string) :
  let run :=
    _ensure_unique_config config_root config_subindex config_joined
      subindex_name st in
  changed_only_at config_joined st (snd run) /\
  (forall l, fst run = inr l -> l = config_joined).
Proof.
  intros run. subst run. split.
  - revert st.
    change (preserves (changed_only_at config_joined)
              (_ensure_unique_config config_root config_subindex config_joined
                 subindex_name)).
    unfold _ensure_unique_config, contains, getitem, setitem, add_str, dict_of, store.
    prove_preserves ltac:(idtac).
    all: repeat split; intros l0 Hne; simpl; now rewrite lookup_insert_ne.
  - intros l. unfold _ensure_unique_config.
    destruct (bind_cases (contains config_subindex "collection_name")
                (fun present =>
                   (if negb present
                    then v ← getitem config_joined "collection_name";
                         v ← add_str v "_subindex_";
                         v ← add_str v subindex_name;
                         setitem config_joined "collection_name" v
                    else mret ());;
                   mret config_joined) st)
      as [(present & st1 & _ & ->) | (e & st1 & _ & ->)]; [| discriminate].
    match goal with
    | |- fst ((?m ≫= ?f) st1) = _ -> _ =>
        destruct (bind_cases m f st1) as [(u & st2 & _ & ->) | (e & st2 & _ & ->)]
    end; [| discriminate].
    now intros [= <-].
Qed.

Lemma ensure_unique_config_frame_witness :
  heap (snd (_ensure_unique_config 1%positive 2%positive 3%positive "S"
               Sample.subindex)) !! 1%positive
  = Some (ODict {[ "collection_name" := PStr "R" ]}).
Proof.
  destruct (ensure_unique_config_frame Sample.subindex 1%positive 2%positive
              3%positive "S") as [(Hheap & _) _].
  rewrite Hheap by discriminate. reflexivity.
Defined.

(** X3: from the same root and joined mappings, two different subindex
    identifiers give two different collection names. *)
Theorem ensure_unique_config_distinct
    (st : state) (config_root config_subindex config_joined : loc)
    (s1 s2 name : string) (sub joined : gmap string pyval) :
  heap st !! config_subindex = Some (ODict sub) ->
  heap st !! config_joined = Some (ODict joined) ->
  sub !! "collection_name" = None ->
  joined !! "collection_name" = Some (PStr name) ->
  s1 <> s2 ->
  exists (st1 st2 : state) (d1 d2 : gmap string pyval),
    _ensure_unique_config config_root config_subindex config_joined s1 st
    = (inr config_joined, st1) /\
    _ensure_unique_config config_root config_subindex config_joined s2 st
    = (inr config_joined, st2) /\
    heap st1 !! config_joined = Some (ODict d1) /\
    heap st2 !! config_joined = Some (ODict d2) /\
    d1 !! "collection_name" <> d2 !! "collection_name".
Proof.
  intros Hsub Hjoined Hno Hname Hne.
  eexists _, _, _, _.
  split; [now apply (ensure_unique_config_renames st _ _ _ s1 name sub joined) |].
  split; [now apply (ensure_unique_config_renames st _ _ _ s2 name sub joined) |].
  split; [simpl; apply lookup_insert_eq |].
  split; [simpl; apply lookup_insert_eq |].
  rewrite !lookup_insert_eq. intros [= E].
  apply String.app_inj in E. apply String.app_inj in E. now apply Hne.
Qed.

Lemma ensure_unique_config_distinct_witness :
  exists (st1 st2 : state) (d1 d2 : gmap string pyval),
    _ensure_unique_config 1%positive 2%positive 3%positive "a" Sample.subindex
    = (inr 3%positive, st1) /\
    _ensure_unique_config 1%positive 2%positive 3%positive "b" Sample.subindex
    = (inr 3%positive, st2) /\
    heap st1 !! 3%positive = Some (ODict d1) /\
    heap st2 !! 3%positive = Some (ODict d2) /\
    d1 !! "collection_name" <> d2 !! "collection_name".
Proof.
  apply (ensure_unique_config_distinct Sample.subindex 1%positive 2%positive
           3%positive "a" "b" "J" ∅ {[ "collection_name" := PStr "J" ]});
    try reflexivity.
  discriminate.
Defined.

(** X4: the namer is not idempotent.  Applied a second time to the
    mappings it has just renamed, it appends the separator and the
    identifier once more. *)
Theorem ensure_unique_config_twice
    (st : state) (config_root config_subindex config_joined : loc)
    (subindex_name name : string) (sub joined : gmap string pyval) :
  heap st !! config_subindex = Some (ODict sub) ->
  heap st !! config_joined = Some (ODict joined) ->
  sub !! "collection_name" = None ->
  joined !! "collection_name" = Some (PStr name) ->
  exists (st1 st2 : state) (d : gmap string pyval),
    _ensure_unique_config config_root config_subindex config_joined
      subindex_name st = (inr config_joined, st1) /\
    _ensure_unique_config config_root config_subindex config_joined
      subindex_name st1 = (inr config_joined, st2) /\
    heap st2 !! config_joined = Some (ODict d) /\
    d !! "collection_name"
    = Some (PStr (name +:+ "_subindex_" +:+ subindex_name
                    +:+ "_subindex_" +:+ subindex_name)).
Proof.
  intros Hsub Hjoined Hno Hname.
  assert (Hdiff : config_subindex <> config_joined).
  { intros ->. rewrite Hsub in Hjoined. injection Hjoined as <-.
    rewrite Hno in Hname. discriminate. }
  eexists _, _, _.
  split; [now apply (ensure_unique_config_renames st _ _ _ subindex_name name
                       sub joined) |].
  split.
  - eapply ensure_unique_config_renames.
    + simpl. rewrite lookup_insert_ne by (intros E; now apply Hdiff). exact Hsub.
    + simpl. apply lookup_insert_eq.
    + exact Hno.
    + apply lookup_insert_eq.
  - split; [simpl; apply lookup_insert_eq |].
    rewrite lookup_insert_eq. now rewrite !append_assoc.
Qed.

Lemma ensure_unique_config_twice_witness :
  exists (st1 st2 : state) (d : gmap string pyval),
    _ensure_unique_config 1%positive 2%positive 3%positive "S" Sample.subindex
    = (inr 3%positive, st1) /\
    _ensure_unique_config 1%positive 2%positive 3%positive "S" st1
    = (inr 3%positive, st2) /\
    heap st2 !! 3%positive = Some (ODict d) /\
    d !! "collection_name" = Some (PStr "J_subindex_S_subindex_S").
Proof.
  apply (ensure_unique_config_twice Sample.subindex 1%positive 2%positive
           3%positive "S" "J" ∅ {[ "collection_name" := PStr "J" ]});
    reflexivity.
Defined.

(** ** The payload codec: empty input, failures, concatenation *)

Section PayloadCodecMore.
Context {D T : Type} `{DocumentLike D T}.

Lemma serialize_read_only (doc : D) : preserves eq (serialize doc).
Proof.
  unfold serialize, self_config, config_of.
  prove_preserves ltac:(idtac).
Qed.

Lemma comprehension_read_only {A B} (f : A -> M B) (l : list A) :
  (forall a, preserves eq (f a)) -> preserves eq (comprehension f l).
Proof.
  intros Hf. induction l as [| a l IH]; simpl.
  - apply preserves_ret. typeclasses eauto.
  - apply preserves_bind; [typeclasses eauto | apply Hf |]. intros b.
    apply preserves_bind; [typeclasses eauto | exact IH |]. intros bs.
    apply preserves_ret. typeclasses eauto.
Qed.

Lemma comprehension_app {A B} (f : A -> M B) (l1 l2 : list A) st bs1 st1 :
  comprehension f l1 st = (inr bs1, st1) ->
  comprehension f (l1 ++ l2) st
  = match comprehension f l2 st1 with
    | (inr bs2, st2) => (inr (bs1 ++ bs2), st2)
    | (inl e, st2) => (inl e, st2)
    end.
Proof.
  revert st bs1. induction l1 as [| a l1 IH]; intros st bs1 E.
  - injection E as <- <-. simpl. now destruct (comprehension f l2 st) as [[e | bs2] st2].
  - change (comprehension f (a :: l1))
      with (b ← f a; bs ← comprehension f l1; mret (b :: bs)) in E.
    apply bind_inv in E as (b & sta & Ha & E).
    apply bind_inv in E as (bs & stb & Hl1 & E).
    injection E as <- <-.
    change (comprehension f ((a :: l1) ++ l2))
      with (b ← f a; bs ← comprehension f (l1 ++ l2); mret (b :: bs)).
    rewrite (bind_inr _ _ _ _ _ Ha).
    specialize (IH sta bs Hl1).
    destruct (comprehension f l2 stb) as [[e | bs2] st2].
    + now rewrite (bind_inl _ _ _ _ _ IH).
    + now rewrite (bind_inr _ _ _ _ _ IH).
Qed.

Lemma docs_payload_inv (docs : list D) st payload st' :
  _docs_to_milvus_payload docs st = (inr payload, st') ->
  exists rows ss,
    embeddings_column docs = inr rows /\
    comprehension serialize docs st = (inr ss, st') /\
    payload = [map CStr (column id_of docs); map embedding_cell rows; map CStr ss].
Proof.
  unfold _docs_to_milvus_payload. cbv zeta. intros E.
  apply bind_inv in E as (rows & st1 & Hrows & E).
  unfold lift in Hrows. injection Hrows as Hrows <-.
  apply bind_inv in E as (ss & st2 & Hss & E). injection E as <- <-. eauto.
Qed.

Lemma docs_payload_read_only (docs : list D) :
  preserves eq (_docs_to_milvus_payload docs).
Proof.
  unfold _docs_to_milvus_payload. cbv zeta.
  apply preserves_bind; [typeclasses eauto | |].
  - apply preserves_lift. typeclasses eauto.
  - intros rows. apply preserves_bind; [typeclasses eauto | |].
    + apply comprehension_read_only. apply serialize_read_only.
    + intros ss. apply preserves_ret. typeclasses eauto.
Qed.

(** X5: neither encoder ever changes the state: whatever the documents
    and whatever the outcome, the heap, the adapter, the log of outside
    calls and the entropy are as before. *)
Theorem payload_encoders_read_only (doc : D) (docs : list D) (st : state) :
  snd (_doc_to_milvus_payload doc st) = st /\
  snd (_docs_to_milvus_payload docs st) = st.
Proof.
  split; symmetry; revert st.
  - change (preserves eq (_doc_to_milvus_payload doc)).
    unfold _doc_to_milvus_payload.
    apply preserves_bind; [typeclasses eauto | apply serialize_read_only |].
    intros s. apply preserves_ret. typeclasses eauto.
  - apply docs_payload_read_only.
Qed.

(** X6: the batch encoder needs embeddings before anything else.  For
    a batch none of whose documents has an embedding, the empty batch
    among them, it raises [TypeError] at line 143 in every state of the
    adapter, without reading the options or serializing a document.  On
    an adapter that has no configuration bound, the single-document
    encoder raises [AttributeError], and so does the batch encoder once
    line 143 has given its column. *)
Theorem docs_payload_needs_embeddings (doc : D) (docs : list D) (st : state) :
  (Forall (fun d => embedding_of d = None) docs ->
   _docs_to_milvus_payload docs st
   = (inl (TypeError "'NoneType' object is not iterable"), st)) /\
  (_config (self st) = None ->
   _doc_to_milvus_payload doc st = (inl (AttributeError "_config"), st) /\
   forall rows,
     embeddings_column docs = inr rows ->
     _docs_to_milvus_payload docs st = (inl (AttributeError "_config"), st)).
Proof.
  split.
  - intros Hunset. unfold _docs_to_milvus_payload. cbv zeta.
    now rewrite (embeddings_column_unset docs Hunset).
  - intros Hnone.
    assert (Hser : forall d, serialize d st = (inl (AttributeError "_config"), st)).
    { intros d. unfold serialize, self_config, get_state, mbind, M_bind, raise.
      now rewrite Hnone. }
    split.
    + unfold _doc_to_milvus_payload. now rewrite (bind_inl _ _ _ _ _ (Hser doc)).
    + intros rows Hrows.
      destruct (embeddings_column_rows docs rows Hrows) as [_ Hne].
      destruct docs as [| d docs]; [now destruct Hne |].
      unfold _docs_to_milvus_payload. cbv zeta. rewrite Hrows.
      erewrite (bind_inr (lift _)) by reflexivity.
      erewrite bind_inl; [reflexivity |].
      change (comprehension serialize (d :: docs))
        with (b ← serialize d; bs ← comprehension serialize docs; mret (b :: bs)).
      now rewrite (bind_inl _ _ _ _ _ (Hser d)).
Qed.

(** X7: once line 143 has given its column, the batch encoder fails
    fast.  When the documents before some document serialize and that
    document does not, the batch raises that document's exception and
    returns no payload, whatever follows it. *)
Theorem docs_payload_first_failure
    (before after : list D) (doc : D) (e : exn) (st : state) l cfg
    (rows : list (option T)) :
  _config (self st) = Some l ->
  heap st !! l = Some (OConfig cfg) ->
  embeddings_column (before ++ doc :: after) = inr rows ->
  Forall (fun d => exists s, to_base64 (serialize_config cfg) d = inr s) before ->
  to_base64 (serialize_config cfg) doc = inl e ->
  _docs_to_milvus_payload (before ++ doc :: after) st = (inl e, st).
Proof.
  intros Hself Hheap Hrows Hbefore Hfail.
  destruct (comprehension_serialize before st l cfg Hself Hheap Hbefore)
    as (ss & Hrun & _).
  unfold _docs_to_milvus_payload. cbv zeta. rewrite Hrows.
  erewrite (bind_inr (lift _)) by reflexivity.
  erewrite bind_inl; [reflexivity |].
  rewrite (comprehension_app _ _ _ _ _ _ Hrun).
  change (comprehension serialize (doc :: after))
    with (b ← serialize doc; bs ← comprehension serialize after; mret (b :: bs)).
  erewrite bind_inl; [reflexivity |].
  rewrite (serialize_run doc st l cfg Hself Hheap). now rewrite Hfail.
Qed.

(** X8: encoding a concatenation is concatenating the encodings,
    column by column: when two batches encode, in the same adapter state,
    and line 143 gives a column for the first followed by the second
    (their embeddings stack together), that batch encodes to the three
    columns of the first each followed by the matching column of the
    second. *)
Theorem docs_payload_app (docs1 docs2 : list D) (st : state)
    (payload1 payload2 : list (list cell)) (rows : list (option T)) :
  fst (_docs_to_milvus_payload docs1 st) = inr payload1 ->
  fst (_docs_to_milvus_payload docs2 st) = inr payload2 ->
  embeddings_column (docs1 ++ docs2) = inr rows ->
  _docs_to_milvus_payload (docs1 ++ docs2) st
  = (inr (zip_with app payload1 payload2), st).
Proof.
  intros E1 E2 Hrows.
  apply surjective_pairing_with_fst in E1, E2.
  rewrite <- (docs_payload_read_only docs1 st) in E1.
  rewrite <- (docs_payload_read_only docs2 st) in E2.
  apply docs_payload_inv in E1 as (rows1 & ss1 & Hrows1 & Hss1 & ->).
  apply docs_payload_inv in E2 as (rows2 & ss2 & Hrows2 & Hss2 & ->).
  apply embeddings_column_rows in Hrows1 as [-> _].
  apply embeddings_column_rows in Hrows2 as [-> _].
  pose proof (embeddings_column_rows _ _ Hrows) as [-> _].
  unfold _docs_to_milvus_payload. cbv zeta. rewrite Hrows.
  erewrite (bind_inr (lift _)) by reflexivity.
  erewrite bind_inr.
  2:{ rewrite (comprehension_app _ _ _ _ _ _ Hss1), Hss2. reflexivity. }
  unfold column. simpl. now rewrite !map_app.
Qed.
End PayloadCodecMore.

Lemma docs_payload_needs_embeddings_witness :
  _docs_to_milvus_payload (D := Sample.document) [] Sample.n_dim_only
  = (inl (TypeError "'NoneType' object is not iterable"), Sample.n_dim_only) /\
  _docs_to_milvus_payload [Sample.unembedded] Sample.bound
  = (inl (TypeError "'NoneType' object is not iterable"), Sample.bound).
Proof.
  split.
  - destruct (docs_payload_needs_embeddings Sample.unembedded [] Sample.n_dim_only)
      as [Hunset _].
    apply Hunset. constructor.
  - destruct (docs_payload_needs_embeddings Sample.unembedded [Sample.unembedded]
                Sample.bound)
      as [Hunset _].
    apply Hunset. repeat constructor.
Defined.

Lemma docs_payload_first_failure_witness :
  _docs_to_milvus_payload Sample.documents
    (mkState {[ 1%positive :=
                  OConfig (mkMilvusConfig 128 (Some "docs") "localhost" None "IP"
                             "HNSW" None ∅ {[ "protocol" := PStr "json" ]}) ]}
       (mkSelf (Some 1%positive) None None None) [] 0)
  = (inl (SerializationError "protocol"),
     mkState {[ 1%positive :=
                  OConfig (mkMilvusConfig 128 (Some "docs") "localhost" None "IP"
                             "HNSW" None ∅ {[ "protocol" := PStr "json" ]}) ]}
       (mkSelf (Some 1%positive) None None None) [] 0).
Proof.
  apply (docs_payload_first_failure []
           [Sample.mkDocument "b" (Some [3; 4]) "second"]
           (Sample.mkDocument "a" (Some [1; 2]) "first")
           (SerializationError "protocol") _ 1%positive
           (mkMilvusConfig 128 (Some "docs") "localhost" None "IP" "HNSW" None ∅
              {[ "protocol" := PStr "json" ]})
           [Some [1; 2]; Some [3; 4]]);
    try reflexivity.
  constructor.
Defined.

Lemma docs_payload_app_witness :
  _docs_to_milvus_payload (Sample.documents ++ Sample.documents) Sample.bound
  = (inr [[CStr "a"; CStr "b"; CStr "a"; CStr "b"];
          [CTensor [1; 2]; CTensor [3; 4]; CTensor [1; 2]; CTensor [3; 4]];
          [CStr "a:first"; CStr "b:second"; CStr "a:first"; CStr "b:second"]],
     Sample.bound).
Proof.
  apply (docs_payload_app Sample.documents Sample.documents Sample.bound
           [[CStr "a"; CStr "b"]; [CTensor [1; 2]; CTensor [3; 4]];
            [CStr "a:first"; CStr "b:second"]]
           [[CStr "a"; CStr "b"]; [CTensor [1; 2]; CTensor [3; 4]];
            [CStr "a:first"; CStr "b:second"]]
           [Some [1; 2]; Some [3; 4]; Some [1; 2]; Some [3; 4]]);
    reflexivity.
Defined.

(** Two batches that encode need not encode together: embeddings of
    two shapes do not stack, and line 143 raises. *)
Lemma docs_payload_app_needs_stacking :
  let a := Sample.mkDocument "a" (Some [1; 2]) "first" in
  let d := Sample.mkDocument "d" (Some [5]) "fourth" in
  _docs_to_milvus_payload [a] Sample.bound
  = (inr [[CStr "a"]; [CTensor [1; 2]]; [CStr "a:first"]], Sample.bound) /\
  _docs_to_milvus_payload [d] Sample.bound
  = (inr [[CStr "d"]; [CTensor [5]]; [CStr "d:fourth"]], Sample.bound) /\
  _docs_to_milvus_payload ([a] ++ [d]) Sample.bound
  = (inl (ValueError "all input arrays must have the same shape"), Sample.bound).
Proof. repeat split. Qed.

(** ** Provisioning: what is refused before the store is asked *)

Section ProvisioningOutcomes.
Variable W : World.

Lemma create_or_reuse_collection_outcome st l cfg alias :
  _config (self st) = Some l ->
  heap st !! l = Some (OConfig cfg) ->
  _connection_alias (self st) = Some alias ->
  _create_or_reuse_collection W st
  = match repeated_keywords (collection_config cfg) with
    | k :: _ =>
        (inl (TypeError ("got multiple values for keyword argument " +:+ k)), st)
    | [] => requested W (primary_request cfg alias) st
    end.
Proof.
  intros Hself Hheap Halias.
  destruct (repeated_keywords (collection_config cfg)) as [| k ks] eqn:Hkw.
  - now apply create_or_reuse_collection_run with (l := l).
  - unfold _create_or_reuse_collection. cbv zeta.
    rewrite (bind_inr _ _ _ _ _ (self_config_run _ _ _ _ Hself Hheap)).
    rewrite (bind_inr _ _ _ _ _ (self_config_run _ _ _ _ Hself Hheap)).
    rewrite (bind_inr _ _ _ _ _ (self_connection_alias_run _ _ Halias)).
    rewrite (bind_inr _ _ _ _ _ (self_config_run _ _ _ _ Hself Hheap)).
    unfold Collection_new. now rewrite Hkw.
Qed.

Lemma create_or_reuse_offset2id_collection_outcome st l cfg alias :
  _config (self st) = Some l ->
  heap st !! l = Some (OConfig cfg) ->
  _connection_alias (self st) = Some alias ->
  _create_or_reuse_offset2id_collection W st
  = match collection_name cfg with
    | None => (inl (TypeError "unsupported operand type(s) for +"), st)
    | Some name => requested W (offset2id_request name alias) st
    end.
Proof.
  intros Hself Hheap Halias.
  destruct (collection_name cfg) as [name |] eqn:Hname.
  - now apply create_or_reuse_offset2id_collection_run with (l := l) (cfg := cfg).
  - unfold _create_or_reuse_offset2id_collection. cbv zeta.
    rewrite (bind_inr _ _ _ _ _ (self_config_run _ _ _ _ Hself Hheap)).
    now rewrite Hname.
Qed.

(** X9: when the configured collection options contain one of the
    keywords that the primary collection is already created with ([name],
    [schema], [using]), creating the primary collection raises [TypeError]
    and the store is not asked for anything. *)
Theorem create_collection_repeated_keyword st l cfg alias (k : string) :
  _config (self st) = Some l ->
  heap st !! l = Some (OConfig cfg) ->
  _connection_alias (self st) = Some alias ->
  k ∈ Collection_keywords ->
  is_Some (collection_config cfg !! k) ->
  exists msg, _create_or_reuse_collection W st = (inl (TypeError msg), st).
Proof.
  intros Hself Hheap Halias Hk Hsome.
  rewrite (create_or_reuse_collection_outcome st l cfg alias Hself Hheap Halias).
  destruct (repeated_keywords (collection_config cfg)) as [| k0 ks] eqn:Hkw;
    [| eauto].
  assert (Hin : k ∈ repeated_keywords (collection_config cfg)).
  { unfold repeated_keywords. apply list_elem_of_filter. now split. }
  rewrite Hkw in Hin. now apply elem_of_nil in Hin.
Qed.

(** X10: for a configuration whose collection name is [None], creating
    the offset2id collection raises [TypeError] and asks the store for
    nothing, while creating the primary collection does ask the store,
    for a collection named [None]. *)
Theorem provisioning_without_name st l cfg alias :
  _config (self st) = Some l ->
  heap st !! l = Some (OConfig cfg) ->
  _connection_alias (self st) = Some alias ->
  collection_name cfg = None ->
  (exists msg,
      _create_or_reuse_offset2id_collection W st = (inl (TypeError msg), st)) /\
  (repeated_keywords (collection_config cfg) = [] ->
   exists primary,
     _create_or_reuse_collection W st = requested W primary st /\
     col_name primary = None).
Proof.
  intros Hself Hheap Halias Hname. split.
  - rewrite (create_or_reuse_offset2id_collection_outcome st l cfg alias
               Hself Hheap Halias), Hname. eauto.
  - intros Hkw.
    rewrite (create_or_reuse_collection_outcome st l cfg alias Hself Hheap Halias),
      Hkw.
    eexists. split; [reflexivity | exact Hname].
Qed.
End ProvisioningOutcomes.

(** ** Initialisation: every way lines 58-68 can end *)

Lemma external_accepted W c st :
  accepts W (log st) c = true ->
  external c W st = (inr tt, with_log (log st ++ [c]) st).
Proof. intros E. unfold external. now rewrite E. Qed.

Lemma external_refused W c st :
  accepts W (log st) c = false ->
  external c W st = (inl (ExternalError c), with_log (log st ++ [c]) st).
Proof. intros E. unfold external. now rewrite E. Qed.

Lemma init_resolved_outcome (W : World) (config : loc) (kwargs : gmap string pyval)
    (cfg : MilvusConfig) (st : state) :
  heap st !! config = Some (OConfig cfg) ->
  let connect := Connect default_alias (host cfg) (port cfg) in
  let primary := primary_request cfg default_alias in
  let super := SuperInitStorage config kwargs in
  let adapter p o := mkSelf (Some config) (Some default_alias) p o in
  let c0 := _collection (self st) in
  let o0 := _offset2id_collection (self st) in
  let after s calls := mkState (heap st) s (log st ++ calls) (draws st) in
  init_resolved W config kwargs st
  = if negb (accepts W (log st) connect)
    then (inl (ExternalError connect), after (adapter c0 o0) [connect])
    else
      match repeated_keywords (collection_config cfg) with
      | k :: _ =>
          (inl (TypeError ("got multiple values for keyword argument " +:+ k)),
           after (adapter c0 o0) [connect])
      | [] =>
          if negb (accepts W (log st ++ [connect]) (CreateCollection primary))
          then (inl (ExternalError (CreateCollection primary)),
                after (adapter c0 o0) [connect; CreateCollection primary])
          else
            match collection_name cfg with
            | None =>
                (inl (TypeError "unsupported operand type(s) for +"),
                 after (adapter (Some primary) o0)
                   [connect; CreateCollection primary])
            | Some name =>
                let offset2id := offset2id_request name default_alias in
                if negb (accepts W (log st ++ [connect; CreateCollection primary])
                           (CreateCollection offset2id))
                then (inl (ExternalError (CreateCollection offset2id)),
                      after (adapter (Some primary) o0)
                        [connect; CreateCollection primary;
                         CreateCollection offset2id])
                else
                  (if accepts W
                        (log st ++ [connect; CreateCollection primary;
                                    CreateCollection offset2id]) super
                   then inr tt else inl (ExternalError super),
                   after (adapter (Some primary) (Some offset2id))
                     [connect; CreateCollection primary;
                      CreateCollection offset2id; super])
            end
      end.
Proof.
  intros Hheap connect primary super adapter c0 o0 after.
  unfold init_resolved, set_self, modify.
  erewrite bind_inr by reflexivity.
  erewrite bind_inr by reflexivity.
  erewrite bind_inr by (apply self_connection_alias_run; reflexivity).
  erewrite bind_inr by (apply config_of_run; exact Hheap).
  fold connect.
  destruct (accepts W (log st) connect) eqn:Hconnect; simpl negb; cbv iota.
  2:{ erewrite bind_inl by (apply external_refused; exact Hconnect). reflexivity. }
  erewrite bind_inr by (apply external_accepted; exact Hconnect).
  assert (Hprimary : forall st3,
    heap st3 = heap st -> _config (self st3) = Some config ->
    _connection_alias (self st3) = Some default_alias ->
    _create_or_reuse_collection W st3
    = match repeated_keywords (collection_config cfg) with
      | k :: _ =>
          (inl (TypeError ("got multiple values for keyword argument " +:+ k)), st3)
      | [] => requested W primary st3
      end).
  { intros st3 Hh Hs Ha.
    apply create_or_reuse_collection_outcome with (l := config);
      [exact Hs | now rewrite Hh | exact Ha]. }
  assert (Hoffset : forall st3,
    heap st3 = heap st -> _config (self st3) = Some config ->
    _connection_alias (self st3) = Some default_alias ->
    _create_or_reuse_offset2id_collection W st3
    = match collection_name cfg with
      | None => (inl (TypeError "unsupported operand type(s) for +"), st3)
      | Some name => requested W (offset2id_request name default_alias) st3
      end).
  { intros st3 Hh Hs Ha.
    apply create_or_reuse_offset2id_collection_outcome with (l := config);
      [exact Hs | now rewrite Hh | exact Ha]. }
  destruct (repeated_keywords (collection_config cfg)) as [| k ks].
  2:{ erewrite bind_inl by (apply Hprimary; reflexivity). reflexivity. }
  destruct (accepts W (log st ++ [connect]) (CreateCollection primary)) eqn:Hp;
    simpl negb; cbv iota.
  2:{ erewrite bind_inl
        by (rewrite Hprimary by reflexivity; unfold requested;
            change (accepts W _ _)
              with (accepts W (log st ++ [connect]) (CreateCollection primary));
            rewrite Hp; reflexivity).
      unfold after, with_log, with_self. simpl. now rewrite <- app_assoc. }
  erewrite bind_inr
    by (rewrite Hprimary by reflexivity; unfold requested;
        change (accepts W _ _)
          with (accepts W (log st ++ [connect]) (CreateCollection primary));
        rewrite Hp; reflexivity).
  erewrite bind_inr by reflexivity.
  destruct (collection_name cfg) as [name |].
  2:{ erewrite bind_inl by (apply Hoffset; reflexivity).
      unfold after, with_log, with_self. simpl. now rewrite <- app_assoc. }
  cbv zeta.
  assert (Hlog : forall a b : call, (log st ++ [a]) ++ [b] = log st ++ [a; b]).
  { intros a b. now rewrite <- app_assoc. }
  destruct (accepts W (log st ++ [connect; CreateCollection primary])
              (CreateCollection (offset2id_request name default_alias))) eqn:Ho;
    simpl negb; cbv iota.
  2:{ erewrite bind_inl
        by (rewrite Hoffset by reflexivity; unfold requested; simpl log;
            rewrite Hlog;
            change (accepts W _ _)
              with (accepts W (log st ++ [connect; CreateCollection primary])
                      (CreateCollection (offset2id_request name default_alias)));
            rewrite Ho; reflexivity).
      unfold after, with_log, with_self. simpl. now rewrite <- !app_assoc. }
  erewrite bind_inr
    by (rewrite Hoffset by reflexivity; unfold requested; simpl log;
        rewrite Hlog;
        change (accepts W _ _)
          with (accepts W (log st ++ [connect; CreateCollection primary])
                  (CreateCollection (offset2id_request name default_alias)));
        rewrite Ho; reflexivity).
  erewrite bind_inr by reflexivity.
  unfold external, after, with_log, with_self. simpl.
  rewrite <- !app_assoc. simpl.
  change (Connect "docarray_default_connection" (host cfg) (port cfg)) with connect.
  change (SuperInitStorage config kwargs) with super.
  match goal with
  | |- context [accepts W ?calls ?c] => destruct (accepts W calls c)
  end; reflexivity.
Qed.

Lemma resolve_config_inv W config st l st1 :
  resolve_config W config st = (inr l, st1) ->
  exists cfg,
    heap st1 !! l = Some (OConfig cfg) /\ log st1 = log st /\ self st1 = self st.
Proof.
  intros Hrun. destruct config as [l0 |]; [| discriminate].
  destruct (heap st !! l0) as [o |] eqn:Hl.
  - destruct (truthy o) eqn:Htruthy.
    + destruct (as_config o) as [e | c] eqn:Hc.
      * rewrite (resolve_config_invalid W l0 o e st Hl Htruthy Hc) in Hrun.
        discriminate.
      * destruct (resolve_config_resolves W l0 o c st Hl Htruthy Hc)
          as (l2 & st2 & Hrun2 & _ & Hobj & _ & Hself & Hlog & _).
        rewrite Hrun2 in Hrun. injection Hrun as <- <-. eauto.
    + rewrite (resolve_config_refuses W l0 o st Hl Htruthy) in Hrun. discriminate.
  - rewrite (resolve_config_dangling W l0 st Hl) in Hrun. discriminate.
Qed.

Lemma with_resolved_name_keeps W draw c :
  host (with_resolved_name W draw c) = host c /\
  port (with_resolved_name W draw c) = port c /\
  n_dim (with_resolved_name W draw c) = n_dim c /\
  collection_config (with_resolved_name W draw c) = collection_config c.
Proof. unfold with_resolved_name. now destruct (collection_name c). Qed.

(** X11: whatever the configuration, the state and the answers of the
    outside, an initialisation makes its outside calls in one order:
    connect, create, create, initialise the base class, stopping at the
    first that fails; it never asks for a collection before it has
    connected, never for more than two, and every call to the store goes
    through the alias ["docarray_default_connection"].  When it returns,
    all four calls have been made. *)
Theorem init_storage_calls_in_order
    (W : World) (config : option loc) (kwargs : gmap string pyval) (st : state) :
  let run := _init_storage W config kwargs st in
  exists calls : list call,
    log (snd run) = log st ++ calls /\
    kind_of <$> calls `prefix_of` [KConnect; KCreate; KCreate; KSuper] /\
    Forall on_default_connection calls /\
    (fst run = inr tt -> length calls = 4%nat).
Proof.
  intros run. subst run.
  destruct (resolve_config W config st) as [[e | l] st1] eqn:Hrun.
  - rewrite (init_storage_unresolved W kwargs _ _ _ _ Hrun).
    pose proof (resolve_config_frame W config st) as (_ & _ & Hlog).
    rewrite Hrun in Hlog. simpl in Hlog.
    exists []. simpl. rewrite Hlog, app_nil_r.
    repeat split; [apply prefix_nil | constructor | discriminate].
  - rewrite (init_storage_resolved W kwargs _ _ _ _ Hrun).
    apply resolve_config_inv in Hrun as (cfg & Hobj & Hlog & _).
    rewrite (init_resolved_outcome W l kwargs cfg st1 Hobj). cbv zeta.
    rewrite Hlog.
    repeat match goal with
           | |- context [if negb ?b then _ else _] => destruct b; simpl negb; cbv iota
           | |- context [match repeated_keywords ?k with _ => _ end] =>
               destruct (repeated_keywords k)
           | |- context [match collection_name ?c with _ => _ end] =>
               destruct (collection_name c)
           end;
      eexists; (split; [reflexivity |]);
      (split; [eexists; reflexivity |]);
      (split; [repeat constructor |]);
      simpl; first [discriminate | reflexivity].
Qed.

(** X12: when the store refuses the connection, initialisation raises
    that refusal after this one call: no collection is asked for, and the
    adapter, though already bound to the resolved configuration and to
    the alias, holds the collections it held before. *)
Theorem init_storage_connect_refused
    (W : World) (kwargs : gmap string pyval) (st : state) (l : loc)
    (o : object) (c : MilvusConfig) :
  heap st !! l = Some o ->
  as_config o = inr c ->
  accepts W (log st) (Connect default_alias (host c) (port c)) = false ->
  exists st' l',
    _init_storage W (Some l) kwargs st
    = (inl (ExternalError (Connect default_alias (host c) (port c))), st') /\
    log st' = log st ++ [Connect default_alias (host c) (port c)] /\
    _config (self st') = Some l' /\
    _connection_alias (self st') = Some default_alias /\
    _collection (self st') = _collection (self st) /\
    _offset2id_collection (self st') = _offset2id_collection (self st).
Proof.
  intros Hl Hc Hrefused.
  destruct (resolve_config_resolves W l o c st Hl (valid_is_truthy o c Hc) Hc)
    as (l' & st1 & Hrun & _ & Hobj & _ & Hself & Hlog & _).
  destruct (with_resolved_name_keeps W (draws st) c) as (Hhost & Hport & _ & _).
  eexists _, l'.
  rewrite (init_storage_resolved W kwargs _ _ _ _ Hrun).
  rewrite (init_resolved_outcome W l' kwargs _ st1 Hobj). cbv zeta.
  rewrite Hhost, Hport, Hlog, Hrefused. simpl.
  rewrite Hself. now repeat split.
Qed.


(** X14: for every valid configuration without a collection name,
    dataclass instance or mapping, with whatever other fields,
    initialisation binds the adapter to a new record that is the given
    one in every field but the collection name, which is ["docarray__"]
    followed by the token of this call's random bytes; one draw is
    consumed, and the caller's object still has no name. *)
Theorem init_storage_generates_name
    (W : World) (kwargs : gmap string pyval) (st : state) (l : loc)
    (o : object) (c : MilvusConfig) :
  heap st !! l = Some o ->
  as_config o = inr c ->
  collection_name c = None ->
  let st' := snd (_init_storage W (Some l) kwargs st) in
  let token := Uuid.format_032x (Uuid.uuid4_int (Uuid.urandom16 W (draws st))) in
  exists l',
    l' <> l /\
    _config (self st') = Some l' /\
    heap st' !! l' = Some (OConfig (set_collection_name ("docarray__" +:+ token) c)) /\
    heap st' !! l = Some o /\
    input_collection_name o = None /\
    draws st' = S (draws st).
Proof.
  intros Hl Hc Hname st' token.
  destruct (init_storage_binds_resolved W kwargs l o c st Hl
              (valid_is_truthy o c Hc) Hc)
    as (l' & Hself & Hnew & Hobj & Hdraws).
  unfold with_resolved_name in Hobj. rewrite Hname in Hobj, Hdraws.
  exists l'. split; [intros ->; rewrite Hl in Hnew; discriminate |].
  split; [exact Hself |]. split; [exact Hobj |].
  split; [| split; [now rewrite <- (as_config_name o c Hc) | exact Hdraws]].
  subst st'.
  pose proof (resolve_config_frame W (Some l) st) as (Hkept & _ & _).
  destruct (resolve_config W (Some l) st) as [[e | l2] st1] eqn:Hrun.
  - rewrite (init_storage_unresolved W kwargs _ _ _ _ Hrun). now apply Hkept.
  - rewrite (init_storage_resolved W kwargs _ _ _ _ Hrun).
    destruct (init_resolved_same_memory W l2 kwargs st1) as [Hheap _].
    rewrite Hheap. now apply Hkept.
Qed.

(** ** Generated names: the token determines the identifier *)

Module TokenFacts.
Import Uuid.
Local Open Scope N_scope.

Lemma hex_value_hex_digit d : d < 16 -> hex_value (hex_digit d) = d.
Proof.
  intros Hd.
  assert (Hn : (N.to_nat d < 16)%nat) by lia.
  rewrite <- (N2Nat.id d) at 2. unfold hex_digit.
  revert Hn. generalize (N.to_nat d) as n. intros n Hn.
  do 16 (destruct n as [| n]; [reflexivity |]). lia.
Qed.

Lemma size_nat_bound n : n < 2 ^ N.of_nat (N.size_nat n).
Proof.
  destruct n as [| p]; [reflexivity |]. simpl N.size_nat.
  induction p as [p IH | p IH |]; simpl Pos.size_nat;
    rewrite ?Nat2N.inj_succ, ?N.pow_succ_r'; lia.
Qed.

Lemma size_nat_bound_16 n : n < 16 ^ N.of_nat (N.size_nat n).
Proof.
  eapply N.lt_le_trans; [apply size_nat_bound |].
  apply N.pow_le_mono_l. lia.
Qed.

Lemma of_hex_from_digits fuel n acc :
  n < 16 ^ N.of_nat fuel ->
  of_hex_from 0 (hex_digits fuel n acc) = of_hex_from n acc.
Proof.
  revert n acc. induction fuel as [| fuel IH]; intros n acc Hn.
  - simpl in *. now replace n with 0 by lia.
  - simpl hex_digits. destruct (N.eqb_spec n 0) as [-> | Hnz]; [reflexivity |].
    rewrite IH.
    + simpl of_hex_from. rewrite hex_value_hex_digit by (apply N.mod_lt; lia).
      f_equal. symmetry. apply N.div_mod. lia.
    + apply N.Div0.div_lt_upper_bound.
      rewrite Nat2N.inj_succ, N.pow_succ_r' in Hn. exact Hn.
Qed.

Lemma of_hex_from_zeros k s :
  of_hex_from 0 (replicate_char k "0" +:+ s) = of_hex_from 0 s.
Proof. induction k as [| k IH]; [reflexivity | exact IH]. Qed.

(** Reading ['%032x' % n] back gives [n]. *)
Lemma of_hex_format_032x n : of_hex_from 0 (format_032x n) = n.
Proof.
  unfold format_032x, zfill. rewrite of_hex_from_zeros. unfold to_hex.
  destruct (N.eqb_spec n 0) as [-> | Hnz]; [reflexivity |].
  apply of_hex_from_digits, size_nat_bound_16.
Qed.

Lemma format_032x_inj a b : format_032x a = format_032x b -> a = b.
Proof.
  intros E. rewrite <- (of_hex_format_032x a), <- (of_hex_format_032x b).
  now rewrite E.
Qed.
End TokenFacts.

(** X15: two initialisations without a collection name, in any two
    worlds and states, end with different collection names whenever the
    UUIDs drawn for them differ: the name determines the UUID. *)
Theorem init_storage_names_distinct
    (W1 W2 : World) (kwargs1 kwargs2 : gmap string pyval) (st1 st2 : state)
    (l1 l2 : loc) (o1 o2 : object) (c1 c2 : MilvusConfig) :
  heap st1 !! l1 = Some o1 -> as_config o1 = inr c1 -> collection_name c1 = None ->
  heap st2 !! l2 = Some o2 -> as_config o2 = inr c2 -> collection_name c2 = None ->
  Uuid.uuid4_int (Uuid.urandom16 W1 (draws st1))
  <> Uuid.uuid4_int (Uuid.urandom16 W2 (draws st2)) ->
  let st1' := snd (_init_storage W1 (Some l1) kwargs1 st1) in
  let st2' := snd (_init_storage W2 (Some l2) kwargs2 st2) in
  exists (l1' l2' : loc) (r1 r2 : MilvusConfig),
    _config (self st1') = Some l1' /\ heap st1' !! l1' = Some (OConfig r1) /\
    _config (self st2') = Some l2' /\ heap st2' !! l2' = Some (OConfig r2) /\
    collection_name r1 <> collection_name r2.
Proof.
  intros Hl1 Hc1 Hn1 Hl2 Hc2 Hn2 Hdiff st1' st2'.
  destruct (init_storage_binds_resolved W1 kwargs1 l1 o1 c1 st1 Hl1
              (valid_is_truthy o1 c1 Hc1) Hc1)
    as (l1' & Hself1 & _ & Hobj1 & _).
  destruct (init_storage_binds_resolved W2 kwargs2 l2 o2 c2 st2 Hl2
              (valid_is_truthy o2 c2 Hc2) Hc2)
    as (l2' & Hself2 & _ & Hobj2 & _).
  unfold with_resolved_name in Hobj1, Hobj2. rewrite Hn1 in Hobj1. rewrite Hn2 in Hobj2.
  eexists l1', l2', _, _.
  split; [exact Hself1 |]. split; [exact Hobj1 |].
  split; [exact Hself2 |]. split; [exact Hobj2 |].
  simpl. unfold generated_name. intros [= E].
  apply String.app_inj in E. now apply TokenFacts.format_032x_inj in E.
Qed.

(** ** The further statements on sample inputs *)

Lemma create_collection_repeated_keyword_witness :
  exists msg,
    _create_or_reuse_collection Sample.world Scenario.repeated_name
    = (inl (TypeError msg), Scenario.repeated_name).
Proof.
  apply (create_collection_repeated_keyword Sample.world Scenario.repeated_name
           1%positive
           (mkMilvusConfig 128 (Some "docs") "localhost" (Some (PortInt 19530))
              "IP" "HNSW" None {[ "name" := PStr "other" ]} ∅)
           "docarray_default_connection" "name");
    try reflexivity.
  - apply list_elem_of_here.
  - eexists. reflexivity.
Defined.

Lemma provisioning_without_name_witness :
  (exists msg,
      _create_or_reuse_offset2id_collection Sample.world Scenario.nameless
      = (inl (TypeError msg), Scenario.nameless)) /\
  (exists primary,
      _create_or_reuse_collection Sample.world Scenario.nameless
      = requested Sample.world primary Scenario.nameless /\
      col_name primary = None).
Proof.
  destruct (provisioning_without_name Sample.world Scenario.nameless 1%positive
              Scenario.defaults "docarray_default_connection"
              eq_refl eq_refl eq_refl eq_refl)
    as [Hoffset Hprimary].
  split; [exact Hoffset | apply Hprimary; reflexivity].
Defined.

Lemma init_storage_connect_refused_witness :
  exists st' l',
    _init_storage Scenario.unreachable (Some 1%positive) ∅ Sample.n_dim_only
    = (inl (ExternalError (Connect default_alias "localhost" (Some (PortInt 19530)))),
       st') /\
    log st' = [Connect default_alias "localhost" (Some (PortInt 19530))] /\
    _config (self st') = Some l' /\
    _connection_alias (self st') = Some default_alias /\
    _collection (self st') = None /\
    _offset2id_collection (self st') = None.
Proof.
  apply (init_storage_connect_refused Scenario.unreachable ∅ Sample.n_dim_only
           1%positive (ODict {[ "n_dim" := PInt 128 ]}) Scenario.defaults);
    reflexivity.
Defined.


Lemma init_storage_generates_name_witness :
  exists l',
    l' <> 1%positive /\
    _config (self (snd (_init_storage Sample.world (Some 1%positive) ∅
                          Sample.n_dim_only))) = Some l' /\
    heap (snd (_init_storage Sample.world (Some 1%positive) ∅ Sample.n_dim_only))
      !! 1%positive
    = Some (ODict {[ "n_dim" := PInt 128 ]}).
Proof.
  destruct (init_storage_generates_name Sample.world ∅ Sample.n_dim_only
              1%positive (ODict {[ "n_dim" := PInt 128 ]}) Scenario.defaults
              eq_refl eq_refl eq_refl)
    as (l' & Hne & Hself & _ & Hkept & _).
  exists l'. now repeat split.
Defined.

Lemma sample_uuids_differ :
  Uuid.uuid4_int (Uuid.urandom16 Sample.world (draws Sample.n_dim_only))
  <> Uuid.uuid4_int (Uuid.urandom16 Scenario.other_entropy (draws Sample.n_dim_only)).
Proof. vm_compute. discriminate. Qed.

Lemma init_storage_names_distinct_witness :
  exists (l1' l2' : loc) (r1 r2 : MilvusConfig),
    _config (self (snd (_init_storage Sample.world (Some 1%positive) ∅
                          Sample.n_dim_only))) = Some l1' /\
    heap (snd (_init_storage Sample.world (Some 1%positive) ∅ Sample.n_dim_only))
      !! l1' = Some (OConfig r1) /\
    _config (self (snd (_init_storage Scenario.other_entropy (Some 1%positive) ∅
                          Sample.n_dim_only))) = Some l2' /\
    heap (snd (_init_storage Scenario.other_entropy (Some 1%positive) ∅
                 Sample.n_dim_only)) !! l2' = Some (OConfig r2) /\
    collection_name r1 <> collection_name r2.
Proof.
  apply (init_storage_names_distinct Sample.world Scenario.other_entropy ∅ ∅
           Sample.n_dim_only Sample.n_dim_only 1%positive 1%positive
           (ODict {[ "n_dim" := PInt 128 ]}) (ODict {[ "n_dim" := PInt 128 ]})
           Scenario.defaults Scenario.defaults);
    try reflexivity.
  exact sample_uuids_differ.
Defined.

(** ** When initialisation returns *)

Lemma with_resolved_name_named W draw c :
  exists name, collection_name (with_resolved_name W draw c) = Some name.
Proof.
  unfold with_resolved_name.
  destruct (collection_name c) as [name |] eqn:E; [now exists name |].
  eexists. reflexivity.
Qed.

(** X16: for a valid configuration, initialisation returns exactly when
    the collection options repeat none of the keywords [name], [schema],
    [using] and the outside accepts, one after the other, the connection,
    the primary collection, the offset2id collection and the
    initialisation of the base class; all of them are determined by the
    resolved configuration, which is a new object. *)
Theorem init_storage_returns_iff
    (W : World) (kwargs : gmap string pyval) (st : state) (l : loc)
    (o : object) (c : MilvusConfig) :
  heap st !! l = Some o ->
  as_config o = inr c ->
  let cfg := with_resolved_name W (draws st) c in
  exists (l' : loc) (name : string),
    collection_name cfg = Some name /\
    heap st !! l' = None /\
    let connect := Connect default_alias (host cfg) (port cfg) in
    let primary := CreateCollection (primary_request cfg default_alias) in
    let offset2id := CreateCollection (offset2id_request name default_alias) in
    let super := SuperInitStorage l' kwargs in
    (fst (_init_storage W (Some l) kwargs st) = inr tt <->
     repeated_keywords (collection_config cfg) = [] /\
     accepts W (log st) connect = true /\
     accepts W (log st ++ [connect]) primary = true /\
     accepts W (log st ++ [connect; primary]) offset2id = true /\
     accepts W (log st ++ [connect; primary; offset2id]) super = true).
Proof.
  intros Hl Hc cfg.
  destruct (resolve_config_resolves W l o c st Hl (valid_is_truthy o c Hc) Hc)
    as (l' & st1 & Hrun & Hnew & Hobj & _ & _ & Hlog & _).
  destruct (with_resolved_name_named W (draws st) c) as [name Hname].
  change (collection_name cfg = Some name) in Hname.
  exists l', name. split; [exact Hname |]. split; [exact Hnew |].
  intros connect primary offset2id super.
  rewrite (init_storage_resolved W kwargs _ _ _ _ Hrun).
  rewrite (init_resolved_outcome W l' kwargs _ st1 Hobj). cbv zeta.
  fold cfg connect. rewrite Hlog, Hname.
  destruct (accepts W (log st) connect); simpl negb; cbv iota;
    [| split; [discriminate | intros (_ & [=] & _)]].
  destruct (repeated_keywords (collection_config cfg)) as [| k ks];
    [| split; [discriminate | intros ([=] & _)]].
  fold primary.
  destruct (accepts W (log st ++ [connect]) primary); simpl negb; cbv iota;
    [| split; [discriminate | intros (_ & _ & [=] & _)]].
  fold offset2id.
  destruct (accepts W (log st ++ [connect; primary]) offset2id);
    simpl negb; cbv iota;
    [| split; [discriminate | intros (_ & _ & _ & [=] & _)]].
  fold super. simpl fst.
  destruct (accepts W (log st ++ [connect; primary; offset2id]) super).
  - split; [now repeat split | reflexivity].
  - split; [discriminate | intros (_ & _ & _ & _ & [=])].
Qed.

Lemma init_storage_returns_iff_witness :
  fst (_init_storage Scenario.one_collection (Some 1%positive) ∅ Sample.named)
  <> inr tt.
Proof.
  destruct (init_storage_returns_iff Scenario.one_collection ∅ Sample.named
              1%positive
              (ODict {[ "n_dim" := PInt 128; "collection_name" := PStr "docs" ]})
              Scenario.named_docs eq_refl eq_refl)
    as (l' & name & Hname & _ & Hiff).
  injection Hname as <-.
  intros Hreturns. apply Hiff in Hreturns as (_ & _ & _ & Hoffset & _).
  discriminate Hoffset.
Defined.
